(** * geckolib: the version exchange, the structure accessor codec and the
      connection handshake of [GeckoSpa]

    A shallow embedding of
      - [src/geckolib/driver/protocol/version.py] (module [Version]),
      - the structure accessor exercised by [tests/test_accessor.py]
        (modules [Accessor] and [TestAccessor]),
      - the handshake of [src/geckolib/spa.py] (module [Spa]): [__init__],
        the four receive callbacks, [refresh], the ping thread, the accessor
        table and [connect],
    together with the properties of the specification that concern them.

    Python objects that are mutated in place are threaded through a small
    state-and-exception monad; the receive path and the ping thread, which
    run beside [connect], appear as a schedule of events interleaved with
    the reads of its polling loop. *)

From Stdlib Require Import ZArith Lia List Bool.
From Stdlib.Strings Require Import String Ascii Byte.
From stdpp Require Import base option list gmap strings pretty.

Local Open Scope Z_scope.

(** ** Python values shared by all modules *)

(** [bytes] objects. *)
Abbreviation bytes := (list byte).

(** The exceptions the modelled code can raise. *)
Inductive exn : Type :=
  | StructError                 (* struct.error *)
  | PyException (msg : string)  (* raise Exception(msg) *)
  | AttributeError              (* attribute access on None *)
  | KeyError (key : string)     (* dict[key] on a missing key *)
  | PermissionError
  | ValueError
  | SchemaError
  | ConnectionError.

(** The result of a call: a returned value or a raised exception. *)
Inductive outcome (A : Type) : Type :=
  | Return (a : A)
  | Raise (e : exn).
Arguments Return {A} a.
Arguments Raise {A} e.

(** Code that mutates an object of type [S] and may raise: the object is
    threaded through, and keeps the mutations done before a raise. *)
Definition M (S A : Type) : Type := S -> S * outcome A.

#[global] Instance M_ret {S} : MRet (M S) := fun A a s => (s, Return a).
#[global] Instance M_bind {S} : MBind (M S) := fun A B k m s =>
  match m s with
  | (s', Return a) => k a s'
  | (s', Raise e) => (s', Raise e)
  end.
Definition raise {S A} (e : exn) : M S A := fun s => (s, Raise e).
Definition modify {S} (f : S -> S) : M S unit := fun s => (f s, Return tt).
Definition gets {S A} (f : S -> A) : M S A := fun s => (s, Return (f s)).

(** ** Bytes as numbers *)

Definition byte_val (b : byte) : Z := Z.of_N (Byte.to_N b).

Definition byte_of_Z (z : Z) : byte :=
  match Byte.of_N (Z.to_N (z mod 256)) with
  | Some b => b
  | None => x00
  end.

(** Big-endian reading of a byte string as an unsigned integer
    ([int.from_bytes(bs, "big")]). *)
Definition be_decode (bs : bytes) : Z :=
  fold_left (fun acc b => acc * 256 + byte_val b) bs 0.

(** Big-endian writing of [v] on [n] bytes; digits above [256^n] are not
    representable and the callers check the range first. *)
Fixpoint be_encode (n : nat) (v : Z) : bytes :=
  match n with
  | O => []
  | S n' => be_encode n' (v / 256) ++ [byte_of_Z v]
  end.

(** [bs.startswith(prefix)]. *)
Fixpoint startswith (bs prefix : bytes) {struct prefix} : bool :=
  match prefix, bs with
  | [], _ => true
  | p :: prefix', b :: bs' => if Byte.eqb p b then startswith bs' prefix' else false
  | _ :: _, [] => false
  end.

(** ** The part of Python's [struct] module the code uses: big-endian
       formats made of [B] (unsigned char) and [H] (unsigned short) *)
Module Struct.

Inductive code : Type := B | H.

Definition size (c : code) : nat :=
  match c with B => 1%nat | H => 2%nat end.

Definition calcsize (fmt : list code) : nat :=
  fold_right (fun c n => (size c + n)%nat) 0%nat fmt.

(** [struct.pack(">" + fmt, *vals)]: [struct.error] when the number of
    values is wrong or a value is out of range for its code. *)
Fixpoint pack (fmt : list code) (vals : list Z) : option bytes :=
  match fmt, vals with
  | [], [] => Some []
  | c :: fmt', v :: vals' =>
      if (0 <=? v) && (v <? 256 ^ Z.of_nat (size c)) then
        match pack fmt' vals' with
        | Some rest => Some (be_encode (size c) v ++ rest)
        | None => None
        end
      else None
  | _, _ => None
  end.

Fixpoint unpack_fields (fmt : list code) (bs : bytes) : list Z :=
  match fmt with
  | [] => []
  | c :: fmt' => be_decode (take (size c) bs) :: unpack_fields fmt' (drop (size c) bs)
  end.

(** [struct.unpack(">" + fmt, bs)]: [struct.error] unless the buffer has
    exactly [calcsize fmt] bytes. *)
Definition unpack (fmt : list code) (bs : bytes) : option (list Z) :=
  if Nat.eqb (length bs) (calcsize fmt) then Some (unpack_fields fmt bs) else None.

End Struct.

(** ** [driver/protocol/version.py] *)
Module Version.

Definition AVERS_VERB : bytes := ["A"; "V"; "E"; "R"; "S"]%byte.
Definition SVERS_VERB : bytes := ["S"; "V"; "E"; "R"; "S"]%byte.
Definition VERSION_FORMAT : list Struct.code :=
  [Struct.H; Struct.B; Struct.B; Struct.H; Struct.B; Struct.B].

(** The handler object: the attributes of the base packet handler that this
    class reads or writes, and its own six version fields ([None] until a
    response has been handled). *)
Record GeckoVersionProtocolHandler : Type := mkHandler {
  _content : option bytes;
  _sequence : Z;
  _should_remove_handler : bool;
  en_build : option Z;
  en_major : option Z;
  en_minor : option Z;
  co_build : option Z;
  co_major : option Z;
  co_minor : option Z
}.

(** Modelled from the spec: the base class [GeckoPacketProtocolHandler]
    ([driver/protocol/packet.py]) is not part of the sources; a handler
    holds a request-sequence id, its raw bytes and a removal flag that is
    set once the expected response has been observed, so a fresh handler
    has the flag unset. *)
Definition GeckoPacketProtocolHandler_init (content : option bytes)
  : GeckoVersionProtocolHandler :=
  mkHandler content 0 false None None None None None None.

(** [__init__]: the six version fields start as [None]. *)
Definition __init__ (content : option bytes) : GeckoVersionProtocolHandler :=
  let self := GeckoPacketProtocolHandler_init content in
  mkHandler (_content self) (_sequence self) (_should_remove_handler self)
            None None None None None None.

(** [request(seq)]. *)
Definition request (seq : Z) : outcome GeckoVersionProtocolHandler :=
  match Struct.pack [Struct.B] [seq] with
  | Some payload => Return (__init__ (Some (AVERS_VERB ++ payload)))
  | None => Raise StructError
  end.

(** [response(en_build, en_major, en_minor, co_build, co_major, co_minor)]. *)
Definition response (enb enM enm cob coM com : Z)
  : outcome GeckoVersionProtocolHandler :=
  match Struct.pack VERSION_FORMAT [enb; enM; enm; cob; coM; com] with
  | Some payload => Return (__init__ (Some (SVERS_VERB ++ payload)))
  | None => Raise StructError
  end.

Definition can_handle (received_bytes : bytes) : bool :=
  startswith received_bytes AVERS_VERB || startswith received_bytes SVERS_VERB.

Definition set_sequence (v : Z) (h : GeckoVersionProtocolHandler) :=
  mkHandler (_content h) v (_should_remove_handler h)
            (en_build h) (en_major h) (en_minor h)
            (co_build h) (co_major h) (co_minor h).

Definition set_versions (a b c d e f : Z) (h : GeckoVersionProtocolHandler) :=
  mkHandler (_content h) (_sequence h) (_should_remove_handler h)
            (Some a) (Some b) (Some c) (Some d) (Some e) (Some f).

Definition set_should_remove_handler (v : bool) (h : GeckoVersionProtocolHandler) :=
  mkHandler (_content h) (_sequence h) v
            (en_build h) (en_major h) (en_minor h)
            (co_build h) (co_major h) (co_minor h).

(** [handle(socket, received_bytes, sender)]; the socket and the sender
    are not used by the method. *)
Definition handle (received_bytes : bytes) : M GeckoVersionProtocolHandler unit :=
  let remainder := drop 5 received_bytes in
  if startswith received_bytes AVERS_VERB then
    match Struct.unpack [Struct.B] remainder with
    | Some [v] => modify (set_sequence v)
    | _ => raise StructError
    end
  else
    (* Otherwise must be SVERS *)
    match Struct.unpack VERSION_FORMAT remainder with
    | Some [a; b; c; d; e; f] =>
        modify (set_versions a b c d e f) ;;
        modify (set_should_remove_handler true)
    | _ => raise StructError
    end.

End Version.

(** ** The Status Buffer and the structure accessor codec

    [driver/accessor.py] and the [GeckoStructure] class are not part of the
    sources: only their unit tests ([tests/test_accessor.py]) are.  The codec
    is therefore written down from sections 3 and 4.1 of the specification
    and run against the vectors of the unit tests below. *)
Module Accessor.

Inductive kind : Type := KByte | KWord | KEnum | KBool.

(** The values an accessor reads and writes: integers for [Byte] and [Word],
    booleans for [Bool], item names for [Enum]. *)
Inductive value : Type :=
  | VInt (z : Z)
  | VBool (b : bool)
  | VStr (s : string).

(** Modelled from the spec: the Field Descriptor of section 3 (the class
    [GeckoStructAccessor] is missing).  [bit_offset] is LSB-numbered inside
    the big-endian window that starts at [byte_offset]. *)
Record field : Type := mkField {
  name : string;
  fkind : kind;
  byte_offset : nat;
  bit_offset : option nat;
  bit_width : option nat;
  item_list : option (list string);
  writable : bool
}.

Definition items (f : field) : list string := default [] (item_list f).

(** Modelled from the spec: the width a field occupies when [bit_width] is
    not explicit: 8 or 16 bits for the raw kinds, one bit for [Bool], and
    [ceil(log2(len(item_list)))] for a bit-positioned [Enum]. *)
Definition default_width (f : field) : nat :=
  match fkind f with
  | KByte => 8
  | KWord => 16
  | KBool => 1
  | KEnum => Z.to_nat (Z.log2_up (Z.of_nat (length (items f))))
  end.

Definition width (f : field) : nat :=
  match fkind f with
  | KBool => 1
  | _ => default (default_width f) (bit_width f)
  end.

(** Modelled from the spec: a field at bit offset [off] of width [w] occupies
    [ceil((off + w) / 8)] contiguous bytes. *)
Definition span (off w : nat) : nat := ((off + w + 7) / 8)%nat.

(** Number of bytes of a field without bit position: a byte or a word. *)
Definition raw_size (f : field) : nat :=
  match fkind f with
  | KWord => 2
  | KEnum => match bit_width f with Some 16%nat => 2 | _ => 1 end
  | _ => 1
  end.

(** The bytes a field covers: [(byte_offset, number of bytes)]. *)
Definition window (f : field) : nat * nat :=
  match bit_offset f with
  | Some off => (byte_offset f, span off (width f))
  | None => (byte_offset f, raw_size f)
  end.

(** Modelled from the spec: segment replace,
    [buffer[offset:offset+len(bytes)] = bytes]. *)
Definition splice (pos : nat) (data : bytes) (buffer : bytes) : bytes :=
  take pos buffer ++ data ++ drop (pos + length data) buffer.

(** The big-endian unsigned integer held by [n] bytes at [pos]; nothing when
    the window leaves the buffer. *)
Definition read_window (pos n : nat) (buffer : bytes) : option Z :=
  if (pos + n <=? length buffer)%nat
  then Some (be_decode (take n (drop pos buffer)))
  else None.

(** Big-endian serialisation on [n] bytes of a value that fits. *)
Definition serialize (n : nat) (v : Z) : option bytes :=
  if (0 <=? v) && (v <? 256 ^ Z.of_nat n) then Some (be_encode n v) else None.

(** The masked integer of a field of [w] bits at bit [off] of a window:
    [(word >> off) & ((1 << w) - 1)]. *)
Definition extract_bits (off w : Z) (word : Z) : Z :=
  Z.land (Z.shiftr word off) (Z.ones w).

(** The window after a read-modify-write of that field: the bits
    [[off, off + w)] cleared, then [raw << off] or-ed in. *)
Definition update_bits (off w : Z) (word raw : Z) : Z :=
  Z.lor (Z.land word (Z.lnot (Z.shiftl (Z.ones w) off))) (Z.shiftl raw off).

(** [item_list.index(s)]: the first position of [s]. *)
Fixpoint index_of (s : string) (l : list string) : option nat :=
  match l with
  | [] => None
  | x :: l' => if String.eqb x s then Some O else S <$> index_of s l'
  end.

(** Modelled from the spec: the masked integer of a field, section 4.1:
    [(word >> bit_offset) & ((1 << bit_width) - 1)] over the big-endian
    window for a bit-positioned field, the raw byte or word otherwise.  A
    [Bool] without bit position and a window outside the buffer are
    malformed references ([SchemaError]). *)
Definition get_raw (f : field) (buffer : bytes) : outcome Z :=
  match bit_offset f with
  | Some off =>
      match read_window (byte_offset f) (span off (width f)) buffer with
      | Some word => Return (extract_bits (Z.of_nat off) (Z.of_nat (width f)) word)
      | None => Raise SchemaError
      end
  | None =>
      match fkind f with
      | KBool => Raise SchemaError
      | _ =>
          match read_window (byte_offset f) (raw_size f) buffer with
          | Some v => Return v
          | None => Raise SchemaError
          end
      end
  end.

(** The value a masked integer stands for: the integer itself for [Byte]
    and [Word], whether it is not zero for [Bool], the item at that 0-based
    index for [Enum] ([SchemaError] when the index is out of range). *)
Definition decode (f : field) (raw : Z) : outcome value :=
  match fkind f with
  | KByte | KWord => Return (VInt raw)
  | KBool => Return (VBool (negb (raw =? 0)))
  | KEnum =>
      match items f !! Z.to_nat raw with
      | Some s => Return (VStr s)
      | None => Raise SchemaError
      end
  end.

(** Modelled from the spec: [get(field, buffer)] of section 4.1. *)
Definition get (f : field) (buffer : bytes) : outcome value :=
  match get_raw f buffer with
  | Raise e => Raise e
  | Return raw => decode f raw
  end.

(** The integer a value stands for when it is written to [f]: the index of
    the name for an [Enum] ([ValueError] for anything that is not a member of
    [item_list]), the number itself otherwise ([True] is 1). *)
Definition resolve (f : field) (v : value) : outcome Z :=
  match fkind f with
  | KEnum =>
      match v with
      | VStr s =>
          match index_of s (items f) with
          | Some i => Return (Z.of_nat i)
          | None => Raise ValueError
          end
      | _ => Raise ValueError
      end
  | _ =>
      match v with
      | VInt z => Return z
      | VBool b => Return (Z.b2z b)
      | VStr _ => Raise ValueError
      end
  end.

(** A value of the kind of the field whose integer fits the width of the
    field: what a field of [width f] bits can hold. *)
Definition storable (f : field) (v : value) : bool :=
  match fkind f, v with
  | KEnum, VStr s =>
      match index_of s (items f) with
      | Some i => Z.of_nat i <? 2 ^ Z.of_nat (width f)
      | None => false
      end
  | KBool, VBool _ => true
  | KByte, VInt z | KWord, VInt z => (0 <=? z) && (z <? 2 ^ Z.of_nat (width f))
  | _, _ => false
  end.

(** The bits of the Status Buffer, numbered from the start of the buffer
    with the most significant bit of byte 0 as bit 0: bit [p] is bit
    [7 - p mod 8] of byte [p / 8]. *)
Definition buffer_bit (buffer : bytes) (p : Z) : bool :=
  if p <? 0 then false
  else match buffer !! Z.to_nat (p / 8) with
       | Some b => Z.testbit (byte_val b) (7 - p mod 8)
       | None => false
       end.

(** The buffer bits a field occupies, in that numbering: its window ends
    before bit [8 * (byte_offset + bytes)], bit 0 of the window is the last
    bit of the window, so the field ends [bit_offset] bits before the end of
    its window and begins [width] bits earlier. *)
Definition bit_end (f : field) : Z :=
  8 * Z.of_nat (byte_offset f + snd (window f)) - Z.of_nat (default 0%nat (bit_offset f)).

Definition bit_start (f : field) : Z := bit_end f - Z.of_nat (width f).

(** The write request handed to the send channel: offset and new bytes. *)
Definition request : Type := nat * bytes.

(** The new content of the window of [f] when [raw] is written: for a
    bit-positioned field the current window with the bits
    [[bit_offset, bit_offset + bit_width)] cleared and [raw << bit_offset]
    or-ed in, the raw value otherwise. *)
Definition encode (f : field) (raw : Z) (buffer : bytes) : outcome bytes :=
  match bit_offset f with
  | Some off =>
      let n := span off (width f) in
      match read_window (byte_offset f) n buffer with
      | None => Raise SchemaError
      | Some word =>
          match serialize n (update_bits (Z.of_nat off) (Z.of_nat (width f)) word raw) with
          | Some data => Return data
          | None => Raise ValueError
          end
      end
  | None =>
      match fkind f with
      | KBool => Raise SchemaError
      | _ =>
          if (byte_offset f + raw_size f <=? length buffer)%nat then
            match serialize (raw_size f) raw with
            | Some data => Return data
            | None => Raise ValueError
            end
          else Raise SchemaError
      end
  end.

(** Modelled from the spec: [set(field, buffer, value)] of section 4.1, as a
    computation on the Status Buffer that returns the request queued for the
    device.  The checks come in the order of the specification: permission,
    [Enum] membership, then the encoding; a failed [set] raises before the
    buffer is touched. *)
Definition set (f : field) (v : value) : M bytes request := fun buffer =>
  if negb (writable f) then (buffer, Raise PermissionError)
  else
    match resolve f v with
    | Raise e => (buffer, Raise e)
    | Return raw =>
        match encode f raw buffer with
        | Raise e => (buffer, Raise e)
        | Return data =>
            (splice (byte_offset f) data buffer, Return (byte_offset f, data))
        end
    end.

End Accessor.

(** ** The fixtures of [tests/test_accessor.py] *)
Module TestAccessor.
Import Accessor.

(** The status block that [MockSpa.__init__] installs. *)
Definition status_block : bytes :=
  [x00; x01; x02; x03; x04; x05; x06; x07; x08; x09; x0a; x0b; x0c; x0d; x0e;
   x0f; x10;
   x02; xbe;
   x11; x70;
   x00; x00].

Definition pack_items : list string :=
  ["Unknown"; "inXE"; "MasIBC"; "MIA"; "DJS4"; "inClear"; "inXM"; "K600";
   "inTerface"; "inTouch"; "inYT"; "K800"; "inYJ"]%string.

Definition udp_items : list string := ["OFF"; "LO"; "HI"]%string.

(** The elements of the tests; the attribute [RW] gives [writable], [Pos]
    and [BitPos] the offsets, [Items] the item list. *)
Definition PackBootRev : field := mkField "PackBootRev" KByte 5 None None None false.
Definition PackBootRev_rw : field := mkField "PackBootRev" KByte 5 None None None true.
Definition RealSetPointG : field := mkField "RealSetPointG" KWord 17 None None None false.
Definition RealSetPointG_rw : field := mkField "RealSetPointG" KWord 17 None None None true.
Definition PackType : field := mkField "PackType" KEnum 6 None None (Some pack_items) false.
Definition PackType_rw : field := mkField "PackType" KEnum 6 None None (Some pack_items) true.
Definition RelayStuck : field := mkField "RelayStuck" KBool 2 (Some 6%nat) None None false.
Definition RelayStuck_rw : field := mkField "RelayStuck" KBool 2 (Some 6%nat) None None true.
Definition UdP3 : field := mkField "UdP3" KEnum 3 (Some 4%nat) None (Some udp_items) true.
Definition UdP2_19 : field := mkField "UdP2" KEnum 19 (Some 12%nat) None (Some udp_items) true.
Definition UdP1 : field := mkField "UdP1" KEnum 21 (Some 14%nat) None (Some udp_items) true.
Definition UdP2 : field := mkField "UdP2" KEnum 21 (Some 12%nat) None (Some udp_items) true.

End TestAccessor.

(** ** [spa.py]: the [GeckoSpa] class and its connection handshake *)
Module Spa.

(** *** Collaborators that the class only uses *)

(** One [ConfigStructure] or [LogStructure] node of [SpaPackStruct.xml]:
    its declared byte range and its elements that carry a position. *)
Record struct_xml : Type := mkStructXml {
  struct_begin : Z;
  struct_end : Z;
  pos_elements : list Accessor.field
}.

(** One [Plateform] node of the capability catalogue. *)
Record plateform : Type := mkPlateform {
  plateform_name : string;
  plateform_type : Z;
  config_structures : list (Z * struct_xml);
  log_structures : list (Z * struct_xml)
}.

(** [GeckoSpaDescriptor]. *)
Record GeckoSpaDescriptor : Type := mkDescriptor {
  client_identifier : bytes;
  identifier : bytes;
  spa_name : string;
  ipaddress : string;
  port : Z
}.

(** The handler classes the spa registers on its socket. *)
Inductive handler : Type :=
  | GeckoPacketProtocolHandler
  | GeckoPartialStatusBlockProtocolHandler
  | GeckoPingProtocolHandler
  | GeckoVersionProtocolHandler
  | GeckoGetChannelProtocolHandler
  | GeckoConfigFileProtocolHandler.

#[global] Instance handler_eq_dec : EqDecision handler.
Proof. solve_decision. Defined.

(** The requests the spa queues; only the version request has its wire
    content spelled out, the others are kept by constructor and arguments. *)
Inductive message : Type :=
  | HelloClient (client : bytes)
  | PingRequest
  | VersionRequest (h : Version.GeckoVersionProtocolHandler)
  | GetChannelRequest (seq : Z)
  | ConfigFileRequest (seq : Z)
  | StatusBlockFullRequest (seq : Z)
  | StatusBlockRequest (seq start stop : Z).

(** The fields of a handled config-file response. *)
Record config_response : Type := mkConfigResponse {
  plateform_key : string;
  handler_config_version : Z;
  handler_log_version : Z
}.

(** Modelled from the spec: the transport ([GeckoUdpSocket], missing) gives
    [open()], [close()], a send queue, the set of active handlers and a
    monotonically increasing sequence counter. *)
Record GeckoUdpSocket : Type := mkSocket {
  isopen : bool;
  sequence_counter : Z;
  send_queue : list message;
  receive_handlers : list handler
}.

(** Modelled from the spec: [GeckoStructure] (missing) owns the Status
    Buffer; [had_at_least_one_block] records that a segment has been merged
    into it, and [retry_requests] holds the requests under the Retry
    Driver. *)
Record GeckoStructure : Type := mkStructure {
  status_block : bytes;
  had_at_least_one_block : bool;
  retry_requests : list message
}.

(** An entry of [self.accessors]. *)
Inductive accessor : Type :=
  | GeckoStructAccessor (element : Accessor.field)
  | GeckoTemperatureDecorator (inner : accessor).

(** The attributes of a [GeckoSpa] object. *)
Record GeckoSpa : Type := mkSpa {
  socket : GeckoUdpSocket;
  xml : list plateform;
  descriptor : GeckoSpaDescriptor;
  ping_thread_started : bool;
  channel : Z;
  signal : Z;
  intouch_version_en : string;
  intouch_version_co : string;
  gecko_pack_xml : option plateform;
  config_version : Z;
  config_xml : option struct_xml;
  log_version : Z;
  log_xml : option struct_xml;
  pack_type : option Z;
  is_connected : bool;
  pack : option Accessor.value;
  version : option string;
  config_number : option Accessor.value;
  accessors : gmap string accessor;
  struct : GeckoStructure
}.

(** *** Attribute assignment *)

Definition set_socket (v : GeckoUdpSocket) (s : GeckoSpa) : GeckoSpa :=
  mkSpa v (xml s) (descriptor s) (ping_thread_started s) (channel s) (signal s)
    (intouch_version_en s) (intouch_version_co s) (gecko_pack_xml s)
    (config_version s) (config_xml s) (log_version s) (log_xml s) (pack_type s)
    (is_connected s) (pack s) (version s) (config_number s) (accessors s) (struct s).

Definition set_struct (v : GeckoStructure) (s : GeckoSpa) : GeckoSpa :=
  mkSpa (socket s) (xml s) (descriptor s) (ping_thread_started s) (channel s) (signal s)
    (intouch_version_en s) (intouch_version_co s) (gecko_pack_xml s)
    (config_version s) (config_xml s) (log_version s) (log_xml s) (pack_type s)
    (is_connected s) (pack s) (version s) (config_number s) (accessors s) v.

Definition set_ping_thread_started (v : bool) (s : GeckoSpa) : GeckoSpa :=
  mkSpa (socket s) (xml s) (descriptor s) v (channel s) (signal s)
    (intouch_version_en s) (intouch_version_co s) (gecko_pack_xml s)
    (config_version s) (config_xml s) (log_version s) (log_xml s) (pack_type s)
    (is_connected s) (pack s) (version s) (config_number s) (accessors s) (struct s).

Definition set_channel (c g : Z) (s : GeckoSpa) : GeckoSpa :=
  mkSpa (socket s) (xml s) (descriptor s) (ping_thread_started s) c g
    (intouch_version_en s) (intouch_version_co s) (gecko_pack_xml s)
    (config_version s) (config_xml s) (log_version s) (log_xml s) (pack_type s)
    (is_connected s) (pack s) (version s) (config_number s) (accessors s) (struct s).

Definition set_intouch_version (en co : string) (s : GeckoSpa) : GeckoSpa :=
  mkSpa (socket s) (xml s) (descriptor s) (ping_thread_started s) (channel s) (signal s)
    en co (gecko_pack_xml s)
    (config_version s) (config_xml s) (log_version s) (log_xml s) (pack_type s)
    (is_connected s) (pack s) (version s) (config_number s) (accessors s) (struct s).

Definition set_gecko_pack_xml (v : option plateform) (s : GeckoSpa) : GeckoSpa :=
  mkSpa (socket s) (xml s) (descriptor s) (ping_thread_started s) (channel s) (signal s)
    (intouch_version_en s) (intouch_version_co s) v
    (config_version s) (config_xml s) (log_version s) (log_xml s) (pack_type s)
    (is_connected s) (pack s) (version s) (config_number s) (accessors s) (struct s).

Definition set_config (cv : Z) (cx : option struct_xml) (s : GeckoSpa) : GeckoSpa :=
  mkSpa (socket s) (xml s) (descriptor s) (ping_thread_started s) (channel s) (signal s)
    (intouch_version_en s) (intouch_version_co s) (gecko_pack_xml s)
    cv cx (log_version s) (log_xml s) (pack_type s)
    (is_connected s) (pack s) (version s) (config_number s) (accessors s) (struct s).

Definition set_log (lv : Z) (lx : option struct_xml) (s : GeckoSpa) : GeckoSpa :=
  mkSpa (socket s) (xml s) (descriptor s) (ping_thread_started s) (channel s) (signal s)
    (intouch_version_en s) (intouch_version_co s) (gecko_pack_xml s)
    (config_version s) (config_xml s) lv lx (pack_type s)
    (is_connected s) (pack s) (version s) (config_number s) (accessors s) (struct s).

Definition set_pack_type (v : option Z) (s : GeckoSpa) : GeckoSpa :=
  mkSpa (socket s) (xml s) (descriptor s) (ping_thread_started s) (channel s) (signal s)
    (intouch_version_en s) (intouch_version_co s) (gecko_pack_xml s)
    (config_version s) (config_xml s) (log_version s) (log_xml s) v
    (is_connected s) (pack s) (version s) (config_number s) (accessors s) (struct s).

Definition set_is_connected (v : bool) (s : GeckoSpa) : GeckoSpa :=
  mkSpa (socket s) (xml s) (descriptor s) (ping_thread_started s) (channel s) (signal s)
    (intouch_version_en s) (intouch_version_co s) (gecko_pack_xml s)
    (config_version s) (config_xml s) (log_version s) (log_xml s) (pack_type s)
    v (pack s) (version s) (config_number s) (accessors s) (struct s).

Definition set_pack (v : option Accessor.value) (s : GeckoSpa) : GeckoSpa :=
  mkSpa (socket s) (xml s) (descriptor s) (ping_thread_started s) (channel s) (signal s)
    (intouch_version_en s) (intouch_version_co s) (gecko_pack_xml s)
    (config_version s) (config_xml s) (log_version s) (log_xml s) (pack_type s)
    (is_connected s) v (version s) (config_number s) (accessors s) (struct s).

Definition set_version (v : option string) (s : GeckoSpa) : GeckoSpa :=
  mkSpa (socket s) (xml s) (descriptor s) (ping_thread_started s) (channel s) (signal s)
    (intouch_version_en s) (intouch_version_co s) (gecko_pack_xml s)
    (config_version s) (config_xml s) (log_version s) (log_xml s) (pack_type s)
    (is_connected s) (pack s) v (config_number s) (accessors s) (struct s).

Definition set_config_number (v : option Accessor.value) (s : GeckoSpa) : GeckoSpa :=
  mkSpa (socket s) (xml s) (descriptor s) (ping_thread_started s) (channel s) (signal s)
    (intouch_version_en s) (intouch_version_co s) (gecko_pack_xml s)
    (config_version s) (config_xml s) (log_version s) (log_xml s) (pack_type s)
    (is_connected s) (pack s) (version s) v (accessors s) (struct s).

Definition set_accessors (v : gmap string accessor) (s : GeckoSpa) : GeckoSpa :=
  mkSpa (socket s) (xml s) (descriptor s) (ping_thread_started s) (channel s) (signal s)
    (intouch_version_en s) (intouch_version_co s) (gecko_pack_xml s)
    (config_version s) (config_xml s) (log_version s) (log_xml s) (pack_type s)
    (is_connected s) (pack s) (version s) (config_number s) v (struct s).

(** *** Strings *)

(** [str.lower()] on ASCII letters. *)
Definition lower_ascii (c : ascii) : ascii :=
  let n := nat_of_ascii c in
  if (65 <=? n)%nat && (n <=? 90)%nat then ascii_of_nat (n + 32) else c.

Fixpoint lower (s : string) : string :=
  match s with
  | EmptyString => EmptyString
  | String c s' => String (lower_ascii c) (lower s')
  end.

(** [needle in s]. *)
Definition contains (needle s : string) : bool :=
  bool_decide (is_Some (String.index 0 needle s)).

(** [str(v)] as used by [str.format]. *)
Definition str_of_field (o : option Z) : string :=
  match o with
  | Some z => pretty z
  | None => "None"
  end.

Definition str_of_value (v : Accessor.value) : string :=
  match v with
  | Accessor.VInt z => pretty z
  | Accessor.VBool true => "True"
  | Accessor.VBool false => "False"
  | Accessor.VStr s => s
  end.

(** ["{0} v{1}.{2}".format(a, b, c)]. *)
Definition format_version (a b c : string) : string :=
  a +:+ " v" +:+ b +:+ "." +:+ c.

(** The constants of [GeckoConstants] ([const.py], missing) that the
    handshake reads. *)
Record GeckoConstants : Type := mkConstants {
  KEY_PACK_TYPE : string;
  KEY_PACK_CONFIG_ID : string;
  KEY_PACK_CONFIG_REV : string;
  KEY_PACK_CONFIG_REL : string;
  KEY_CONFIG_NUMBER : string;
  EXCEPTION_MESSAGE_NO_SPA_PACK : string -> string
}.

(** The asynchronous events that reach the spa object while [connect] waits:
    the transport closing, the callbacks run by the receive path, and one
    turn of the ping thread. *)
Inductive event : Type :=
  | SocketClosed
  | VersionReceived (h : Version.GeckoVersionProtocolHandler)
  | ChannelReceived (handler_channel handler_signal_strength : Z)
  | ConfigReceived (h : config_response)
  | PartialStatusUpdate (changes : list (nat * bytes))
  | PingThreadTurn.

(** How the wait loop of [connect] ended. *)
Inductive wait_result : Type :=
  | LoopExit       (* [is_connected] became true *)
  | SocketGone     (* [return] inside the loop *)
  | StillPolling.  (* the loop is still spinning when the schedule ends *)

(** What [connect] returned. *)
Inductive returned : Type :=
  | ReturnsSelf
  | ReturnsNone
  | NoReturnYet.

(** [GeckoSpa.__init__]; the catalogue loaded by [GeckoSpaPack] and the
    initial Status Buffer of [GeckoStructure] are given. *)
Definition __init__ (catalogue : list plateform) (block : bytes)
    (d : GeckoSpaDescriptor) : GeckoSpa :=
  mkSpa (mkSocket false 0 []
           [GeckoPacketProtocolHandler; GeckoPartialStatusBlockProtocolHandler])
        catalogue d false 0 0 "" "" None 0 None 0 None None false None None None ∅
        (mkStructure block false []).

(** Whether an event merges a segment into the Status Buffer: a partial
    status update that carries at least one change. *)
Definition merges_segment (e : event) : bool :=
  match e with
  | PartialStatusUpdate (_ :: _) => true
  | _ => false
  end.

(** The events of some turns of the loop of [connect], in the order in which
    they happen. *)
Definition events_of (turns : list (list event * list event)) : list event :=
  concat (map (fun turn => fst turn ++ snd turn) turns).

Section Handshake.

Variable K : GeckoConstants.

(** The value of a temperature-decorated accessor ([GeckoTemperatureDecorator],
    missing and outside the core of the specification). *)
Variable decorated_value : accessor -> bytes -> outcome Accessor.value.

(** *** The transport and the structure *)

Definition queue_send (m : message) : M GeckoSpa unit :=
  modify (fun s =>
    let k := socket s in
    set_socket (mkSocket (isopen k) (sequence_counter k)
                         (send_queue k ++ [m]) (receive_handlers k)) s).

(** Modelled from the spec: registering a handler of a kind that is already
    pending replaces it (section 4.3). *)
Definition add_receive_handler (h : handler) : M GeckoSpa unit :=
  modify (fun s =>
    let k := socket s in
    set_socket (mkSocket (isopen k) (sequence_counter k) (send_queue k)
                         (filter (fun h' => h' <> h) (receive_handlers k) ++ [h])) s).

(** Modelled from the spec: the sequence counter only grows. *)
Definition get_and_increment_sequence_counter : M GeckoSpa Z := fun s =>
  let k := socket s in
  (set_socket (mkSocket (isopen k) (sequence_counter k + 1)
                        (send_queue k) (receive_handlers k)) s,
   Return (sequence_counter k)).

Definition set_isopen (v : bool) : M GeckoSpa unit :=
  modify (fun s =>
    let k := socket s in
    set_socket (mkSocket v (sequence_counter k) (send_queue k) (receive_handlers k)) s).

Definition open : M GeckoSpa unit := set_isopen true.
Definition close : M GeckoSpa unit := set_isopen false.

(** Modelled from the spec: merging a segment splices it into the Status
    Buffer, and from the first merged segment on the structure reports that
    it has had a block (section 4.5, step 4). *)
Definition replace_status_block_segment (pos : nat) (data : bytes) : M GeckoSpa unit :=
  modify (fun s =>
    let t := struct s in
    set_struct (mkStructure (Accessor.splice pos data (status_block t)) true
                            (retry_requests t)) s).

(** Modelled from the spec: the Retry Driver keeps the request and sends
    it (section 4.4). *)
Definition retry_request (m : message) : M GeckoSpa unit :=
  modify (fun s =>
    let t := struct s in
    set_struct (mkStructure (status_block t) (had_at_least_one_block t)
                            (retry_requests t ++ [m])) s) ;;
  queue_send m.

(** Running a computation that only reads. *)
Definition lift {A} (o : outcome A) : M GeckoSpa A := fun s => (s, o).

(** *** The callbacks *)

Fixpoint _on_partial_status_update (changes : list (nat * bytes)) : M GeckoSpa unit :=
  match changes with
  | [] => mret tt
  | change :: rest =>
      replace_status_block_segment (fst change) (snd change) ;;
      _on_partial_status_update rest
  end.

(** The [for plateform in ...] loop: the last node whose lower-cased name
    equals the lower-cased key wins, and without one the attribute keeps
    its value. *)
Definition find_plateform (key : string) (nodes : list plateform)
    (current : option plateform) : option plateform :=
  fold_left (fun found p =>
               if String.eqb (lower (plateform_name p)) (lower key)
               then Some p else found)
            nodes current.

(** [node.find(xpath.format(version))]: the first structure of that
    version, or [None]. *)
Fixpoint find_structure (v : Z) (l : list (Z * struct_xml)) : option struct_xml :=
  match l with
  | [] => None
  | (v', x) :: l' => if v' =? v then Some x else find_structure v l'
  end.

Definition _on_config_received (h : config_response) : M GeckoSpa unit :=
  nodes ← gets xml ;
  current ← gets gecko_pack_xml ;
  modify (set_gecko_pack_xml (find_plateform (plateform_key h) nodes current)) ;;
  found ← gets gecko_pack_xml ;
  match found with
  | None => raise (PyException (EXCEPTION_MESSAGE_NO_SPA_PACK K (plateform_key h)))
  | Some p =>
      modify (set_config (handler_config_version h)
                (find_structure (handler_config_version h) (config_structures p))) ;;
      modify (set_log (handler_log_version h)
                (find_structure (handler_log_version h) (log_structures p))) ;;
      modify (set_pack_type (Some (plateform_type p))) ;;
      seq ← get_and_increment_sequence_counter ;
      retry_request (StatusBlockFullRequest seq)
  end.

Definition _on_channel_received (c g : Z) : M GeckoSpa unit :=
  modify (set_channel c g) ;;
  add_receive_handler GeckoConfigFileProtocolHandler ;;
  seq ← get_and_increment_sequence_counter ;
  queue_send (ConfigFileRequest seq).

Definition _on_version_received (h : Version.GeckoVersionProtocolHandler)
  : M GeckoSpa unit :=
  modify (set_intouch_version
            (format_version (str_of_field (Version.en_build h))
               (str_of_field (Version.en_major h)) (str_of_field (Version.en_minor h)))
            (format_version (str_of_field (Version.co_build h))
               (str_of_field (Version.co_major h)) (str_of_field (Version.co_minor h)))) ;;
  add_receive_handler GeckoGetChannelProtocolHandler ;;
  seq ← get_and_increment_sequence_counter ;
  queue_send (GetChannelRequest seq).

(** [refresh()]. *)
Definition refresh : M GeckoSpa unit :=
  connected ← gets is_connected ;
  if negb connected then mret tt
  else
    seq ← get_and_increment_sequence_counter ;
    lx ← gets log_xml ;
    match lx with
    | None => raise AttributeError
    | Some x => retry_request (StatusBlockRequest seq (struct_begin x) (struct_end x))
    end.

(** One turn of the loop of [_ping_thread_func]; the waiting and the
    comparison of clock readings only log. *)
Definition _ping_thread_turn : M GeckoSpa unit :=
  k ← gets socket ;
  if isopen k then queue_send PingRequest ;; refresh else mret tt.

(** *** Building the accessor table *)

(** The dict comprehension of [_build_accessors]: one accessor per element,
    a later element replaces an earlier one of the same tag. *)
Definition accessor_table (elements : list Accessor.field) : gmap string accessor :=
  fold_left (fun acc element => <[Accessor.name element := GeckoStructAccessor element]> acc)
            elements ∅.

(** The condition of the set comprehension: a word element whose
    lower-cased tag contains [temp] or [setpoint]. *)
Definition is_temp_key (element : Accessor.field) : bool :=
  match Accessor.fkind element with
  | Accessor.KWord =>
      contains "temp" (lower (Accessor.name element))
      || contains "setpoint" (lower (Accessor.name element))
  | _ => false
  end.

(** The tags of the word elements that name a temperature. *)
Definition temp_keys (elements : list Accessor.field) : list string :=
  remove_dups (Accessor.name <$> List.filter is_temp_key elements).

Definition _build_accessors : M GeckoSpa unit :=
  cx ← gets config_xml ;
  lx ← gets log_xml ;
  match cx, lx with
  | Some c, Some l =>
      let elements := pos_elements c ++ pos_elements l in
      modify (set_accessors (accessor_table elements)) ;;
      modify (fun s =>
        set_accessors
          (fold_left (fun acc key => alter GeckoTemperatureDecorator key acc)
                     (temp_keys elements) (accessors s)) s)
  | _, _ => raise AttributeError
  end.

(** [accessor.value]. *)
Definition accessor_value (a : accessor) (buffer : bytes) : outcome Accessor.value :=
  match a with
  | GeckoStructAccessor element => Accessor.get element buffer
  | GeckoTemperatureDecorator _ => decorated_value a buffer
  end.

(** [self.accessors[key].value]. *)
Definition value_of (key : string) : M GeckoSpa Accessor.value := fun s =>
  match accessors s !! key with
  | None => (s, Raise (KeyError key))
  | Some a => (s, accessor_value a (status_block (struct s)))
  end.

(** *** [connect] *)

(** What one asynchronous event does to the object.  An exception raised by
    a callback travels up the receive path, not into [connect]; the
    attributes assigned before the raise stay assigned. *)
Definition deliver (e : event) (s : GeckoSpa) : GeckoSpa :=
  match e with
  | SocketClosed => fst (close s)
  | VersionReceived h => fst (_on_version_received h s)
  | ChannelReceived c g => fst (_on_channel_received c g s)
  | ConfigReceived h => fst (_on_config_received h s)
  | PartialStatusUpdate changes => fst (_on_partial_status_update changes s)
  | PingThreadTurn => fst (_ping_thread_turn s)
  end.

Definition deliver_all (es : list event) (s : GeckoSpa) : GeckoSpa :=
  fold_left (fun s e => deliver e s) es s.

(** The loop [while not self.is_connected: ...].  Each turn of the schedule
    lists the events that happen before the loop reads [isopen] and those
    that happen between that read and the read of
    [had_at_least_one_block]. *)
Fixpoint wait_for_connection (schedule : list (list event * list event))
    (s : GeckoSpa) : GeckoSpa * wait_result :=
  if is_connected s then (s, LoopExit)
  else
    match schedule with
    | [] => (s, StillPolling)
    | (before_isopen, before_block) :: schedule' =>
        let s1 := deliver_all before_isopen s in
        if negb (isopen (socket s1)) then (s1, SocketGone)
        else
          let s2 := deliver_all before_block s1 in
          wait_for_connection schedule'
            (set_is_connected (had_at_least_one_block (struct s2)) s2)
    end.

(** The statements of [connect] after the loop. *)
Definition connected_step : M GeckoSpa returned :=
  _build_accessors ;;
  p ← value_of (KEY_PACK_TYPE K) ;
  modify (set_pack (Some p)) ;;
  id ← value_of (KEY_PACK_CONFIG_ID K) ;
  rev ← value_of (KEY_PACK_CONFIG_REV K) ;
  rel ← value_of (KEY_PACK_CONFIG_REL K) ;
  modify (set_version
            (Some (format_version (str_of_value id) (str_of_value rev) (str_of_value rel)))) ;;
  n ← value_of (KEY_CONFIG_NUMBER K) ;
  modify (set_config_number (Some n)) ;;
  mret ReturnsSelf.

(** The statements of [connect] before the loop. *)
Definition start_handshake : M GeckoSpa unit :=
  d ← gets descriptor ;
  queue_send (HelloClient (client_identifier d)) ;;
  open ;;
  add_receive_handler GeckoPingProtocolHandler ;;
  modify (set_ping_thread_started true) ;;
  modify (set_is_connected false) ;;
  add_receive_handler GeckoVersionProtocolHandler ;;
  seq ← get_and_increment_sequence_counter ;
  req ← lift (Version.request seq) ;
  queue_send (VersionRequest req).

Definition connect (schedule : list (list event * list event)) : M GeckoSpa returned :=
  start_handshake ;;
  r ← (fun s => let '(s', w) := wait_for_connection schedule s in (s', Return w)) ;
  match r with
  | SocketGone => mret ReturnsNone
  | StillPolling => mret NoReturnYet
  | LoopExit => connected_step
  end.

End Handshake.

(** *** An example installation, used to run the handshake *)

Definition example_constants : GeckoConstants :=
  mkConstants "PackType" "PackConfID" "PackConfRev" "PackConfRel" "ConfigNumber"
              (fun key => "Cannot find spa pack for " +:+ key).

Definition example_config : struct_xml :=
  mkStructXml 0 17
    [Accessor.mkField "ConfigNumber" Accessor.KByte 1 None None None false;
     Accessor.mkField "PackConfID" Accessor.KWord 2 None None None false].

Definition example_log : struct_xml :=
  mkStructXml 0 23
    [Accessor.mkField "PackType" Accessor.KEnum 6 None None
       (Some TestAccessor.pack_items) false;
     Accessor.mkField "PackConfRev" Accessor.KByte 7 None None None false;
     Accessor.mkField "PackConfRel" Accessor.KByte 8 None None None false;
     Accessor.mkField "UdP2" Accessor.KEnum 19 (Some 12%nat) None
       (Some TestAccessor.udp_items) true].

Definition example_catalogue : list plateform :=
  [mkPlateform "InXM" 6 [(9, example_config)] [(9, example_log)]].

Definition example_descriptor : GeckoSpaDescriptor :=
  mkDescriptor ["I"; "O"; "S"]%byte ["S"; "P"; "A"]%byte "My Spa" "10.0.0.2" 10022.

Definition example_spa : GeckoSpa :=
  __init__ example_catalogue (replicate 23 x00) example_descriptor.

Definition example_decorated_value (a : accessor) (buffer : bytes)
  : outcome Accessor.value := Raise SchemaError.


End Spa.

(** * Properties *)

(** ** Bytes and big-endian integers *)

Lemma byte_val_range (b : byte) : 0 <= byte_val b < 256.
Proof.
  unfold byte_val. pose proof (Byte.to_N_bounded b) as Hb. lia.
Qed.

Lemma byte_of_val (b : byte) : byte_of_Z (byte_val b) = b.
Proof.
  unfold byte_of_Z. pose proof (byte_val_range b) as Hr.
  rewrite Z.mod_small by lia. unfold byte_val.
  rewrite N2Z.id, Byte.of_to_N. reflexivity.
Qed.

Lemma val_of_byte (z : Z) : byte_val (byte_of_Z z) = z mod 256.
Proof.
  unfold byte_of_Z.
  pose proof (Z.mod_pos_bound z 256 ltac:(lia)) as Hm.
  destruct (Byte.of_N (Z.to_N (z mod 256))) as [b|] eqn:E.
  - apply Byte.to_of_N in E. unfold byte_val. rewrite E. lia.
  - apply Byte.of_N_None_iff in E. lia.
Qed.

Lemma be_decode_snoc (bs : bytes) (b : byte) :
  be_decode (bs ++ [b]) = be_decode bs * 256 + byte_val b.
Proof. unfold be_decode. rewrite fold_left_app. reflexivity. Qed.

Lemma be_decode_range (bs : bytes) : 0 <= be_decode bs < 256 ^ Z.of_nat (length bs).
Proof.
  induction bs as [|b bs IH] using rev_ind.
  - cbn. lia.
  - rewrite be_decode_snoc, length_app, Nat2Z.inj_add. cbn [length].
    rewrite Z.pow_add_r by lia.
    pose proof (byte_val_range b). change (256 ^ Z.of_nat 1) with 256. nia.
Qed.

Lemma length_be_encode (n : nat) (v : Z) : length (be_encode n v) = n.
Proof.
  revert v. induction n as [|n IH]; intros v; cbn; [reflexivity|].
  rewrite length_app, IH. cbn. lia.
Qed.

Lemma be_decode_encode (n : nat) (v : Z) :
  0 <= v < 256 ^ Z.of_nat n -> be_decode (be_encode n v) = v.
Proof.
  revert v. induction n as [|n IH]; intros v Hv.
  - cbn in *. lia.
  - cbn [be_encode]. rewrite be_decode_snoc, val_of_byte.
    rewrite IH.
    + pose proof (Z.div_mod v 256 ltac:(lia)). lia.
    + rewrite Nat2Z.inj_succ, Z.pow_succ_r in Hv by lia.
      split; [apply Z.div_pos; lia|apply Z.div_lt_upper_bound; lia].
Qed.

Lemma be_encode_decode (bs : bytes) : be_encode (length bs) (be_decode bs) = bs.
Proof.
  induction bs as [|b bs IH] using rev_ind; [reflexivity|].
  rewrite length_app, Nat.add_comm. cbn [length Nat.add be_encode].
  rewrite be_decode_snoc. pose proof (byte_val_range b) as Hb.
  replace ((be_decode bs * 256 + byte_val b) / 256) with (be_decode bs)
    by (apply Z.div_unique with (r := byte_val b); lia).
  rewrite IH. f_equal. f_equal.
  unfold byte_of_Z.
  replace ((be_decode bs * 256 + byte_val b) mod 256) with (byte_val b)
    by (apply Z.mod_unique with (q := be_decode bs); lia).
  pose proof (byte_of_val b) as Hbv. unfold byte_of_Z in Hbv.
  rewrite Z.mod_small in Hbv by lia. exact Hbv.
Qed.

Lemma startswith_app (p r : bytes) : startswith (p ++ r) p = true.
Proof.
  induction p as [|b p IH]; cbn; [reflexivity|].
  rewrite (Byte.byte_dec_lb (x:=b) (y:=b) eq_refl). exact IH.
Qed.

Lemma startswith_inv (bs p : bytes) :
  startswith bs p = true -> bs = p ++ drop (length p) bs.
Proof.
  revert bs. induction p as [|b p IH]; intros bs H; cbn in *.
  - reflexivity.
  - destruct bs as [|c bs]; [discriminate|].
    destruct (Byte.eqb b c) eqn:E; [|discriminate].
    apply Byte.byte_dec_bl in E. subst c. cbn. f_equal. apply IH, H.
Qed.

(** ** The version exchange *)

Section VersionExchange.
Import Version.

Lemma pack_one (c : Struct.code) (v : Z) :
  0 <= v < 256 ^ Z.of_nat (Struct.size c) ->
  Struct.pack [c] [v] = Some (be_encode (Struct.size c) v).
Proof.
  intros Hv. cbn [Struct.pack].
  replace ((0 <=? v) && (v <? 256 ^ Z.of_nat (Struct.size c))) with true
    by (symmetry; apply andb_true_iff; split; [apply Z.leb_le|apply Z.ltb_lt]; lia).
  rewrite app_nil_r. reflexivity.
Qed.

Lemma handle_avers (d : bytes) (h : GeckoVersionProtocolHandler) :
  startswith d AVERS_VERB = true ->
  _should_remove_handler (fst (handle d h)) = _should_remove_handler h.
Proof.
  intros Hd. unfold handle. rewrite Hd.
  destruct (Struct.unpack [Struct.B] (drop 5 d)) as [[|v [|w l]]|]; reflexivity.
Qed.

Lemma verbs_exclusive (d : bytes) :
  startswith d AVERS_VERB = true -> startswith d SVERS_VERB = false.
Proof.
  intros Hd. apply startswith_inv in Hd. rewrite Hd. reflexivity.
Qed.

(** C9: a version request is the five bytes [AVERS] followed by the sequence
    number on one unsigned byte; a version response is the five bytes [SVERS]
    followed by the big-endian groups (build on two bytes, major and minor on
    one byte each) of the firmware and then of the controller board; and
    [handle] applied to an [SVERS] datagram stores in the six version fields
    exactly the numbers held by the eight bytes after the verb, whatever
    these bytes are: the six numbers given to [response] come back. *)
Theorem version_exchange_wire_format
    (seq enb enM enm cob coM com : Z) (h : GeckoVersionProtocolHandler)
    (Hseq : 0 <= seq < 256)
    (Henb : 0 <= enb < 65536) (HenM : 0 <= enM < 256) (Henm : 0 <= enm < 256)
    (Hcob : 0 <= cob < 65536) (HcoM : 0 <= coM < 256) (Hcom : 0 <= com < 256) :
  length AVERS_VERB = 5%nat /\ length SVERS_VERB = 5%nat /\
  (exists r payload,
     request seq = Return r /\ _content r = Some (AVERS_VERB ++ payload) /\
     byte_val <$> payload = [seq]) /\
  (exists r payload,
     response enb enM enm cob coM com = Return r /\
     _content r = Some (SVERS_VERB ++ payload) /\
     byte_val <$> payload =
       [enb / 256; enb mod 256; enM; enm; cob / 256; cob mod 256; coM; com] /\
     let h' := fst (handle (SVERS_VERB ++ payload) h) in
     snd (handle (SVERS_VERB ++ payload) h) = Return tt /\
     en_build h' = Some enb /\ en_major h' = Some enM /\ en_minor h' = Some enm /\
     co_build h' = Some cob /\ co_major h' = Some coM /\ co_minor h' = Some com) /\
  (forall b0 b1 b2 b3 b4 b5 b6 b7 : byte,
     let h' := fst (handle (SVERS_VERB ++ [b0; b1; b2; b3; b4; b5; b6; b7]) h) in
     snd (handle (SVERS_VERB ++ [b0; b1; b2; b3; b4; b5; b6; b7]) h) = Return tt /\
     en_build h' = Some (byte_val b0 * 256 + byte_val b1) /\
     en_major h' = Some (byte_val b2) /\ en_minor h' = Some (byte_val b3) /\
     co_build h' = Some (byte_val b4 * 256 + byte_val b5) /\
     co_major h' = Some (byte_val b6) /\ co_minor h' = Some (byte_val b7)).
Proof.
  assert (Hdec : forall b0 b1 b2 b3 b4 b5 b6 b7 : byte,
     let h' := fst (handle (SVERS_VERB ++ [b0; b1; b2; b3; b4; b5; b6; b7]) h) in
     snd (handle (SVERS_VERB ++ [b0; b1; b2; b3; b4; b5; b6; b7]) h) = Return tt /\
     en_build h' = Some (byte_val b0 * 256 + byte_val b1) /\
     en_major h' = Some (byte_val b2) /\ en_minor h' = Some (byte_val b3) /\
     co_build h' = Some (byte_val b4 * 256 + byte_val b5) /\
     co_major h' = Some (byte_val b6) /\ co_minor h' = Some (byte_val b7)).
  { intros. repeat split. }
  assert (0 <= enb / 256 < 256 /\ 0 <= cob / 256 < 256) as [Hq1 Hq2]
    by (split; (split; [apply Z.div_pos; lia|apply Z.div_lt_upper_bound; lia])).
  split; [reflexivity|]. split; [reflexivity|]. split; [|split; [|exact Hdec]].
  - exists (__init__ (Some (AVERS_VERB ++ [byte_of_Z seq]))), [byte_of_Z seq].
    split; [unfold request; rewrite pack_one by (cbn; lia); reflexivity|].
    split; [reflexivity|].
    cbn [fmap list_fmap]. rewrite val_of_byte, Z.mod_small by lia. reflexivity.
  - exists (__init__ (Some (SVERS_VERB ++
      [byte_of_Z (enb / 256); byte_of_Z enb; byte_of_Z enM; byte_of_Z enm;
       byte_of_Z (cob / 256); byte_of_Z cob; byte_of_Z coM; byte_of_Z com]))),
      [byte_of_Z (enb / 256); byte_of_Z enb; byte_of_Z enM; byte_of_Z enm;
       byte_of_Z (cob / 256); byte_of_Z cob; byte_of_Z coM; byte_of_Z com].
    split.
    { unfold response, VERSION_FORMAT. cbn [Struct.pack Struct.size].
      change (256 ^ Z.of_nat 2) with 65536. change (256 ^ Z.of_nat 1) with 256.
      repeat match goal with
      | |- context [(0 <=? ?v) && (?v <? ?m)] =>
          replace ((0 <=? v) && (v <? m)) with true
            by (symmetry; apply andb_true_iff; split; [apply Z.leb_le|apply Z.ltb_lt]; lia)
      end.
      reflexivity. }
    split; [reflexivity|].
    assert (Hvals : byte_val <$>
        [byte_of_Z (enb / 256); byte_of_Z enb; byte_of_Z enM; byte_of_Z enm;
         byte_of_Z (cob / 256); byte_of_Z cob; byte_of_Z coM; byte_of_Z com] =
        [enb / 256; enb mod 256; enM; enm; cob / 256; cob mod 256; coM; com]).
    { cbn [fmap list_fmap]. rewrite !val_of_byte.
      rewrite (Z.mod_small enM), (Z.mod_small enm), (Z.mod_small coM),
        (Z.mod_small com), (Z.mod_small (enb / 256)), (Z.mod_small (cob / 256)) by lia.
      reflexivity. }
    split; [exact Hvals|].
    injection Hvals as V0 V1 V2 V3 V4 V5 V6 V7.
    destruct (Hdec (byte_of_Z (enb / 256)) (byte_of_Z enb) (byte_of_Z enM) (byte_of_Z enm)
                   (byte_of_Z (cob / 256)) (byte_of_Z cob) (byte_of_Z coM) (byte_of_Z com))
      as (R & E1 & E2 & E3 & E4 & E5 & E6).
    cbv zeta. rewrite R, E1, E2, E3, E4, E5, E6, V0, V1, V2, V3, V4, V5, V6, V7.
    replace (enb / 256 * 256 + enb mod 256) with enb
      by (pose proof (Z.div_mod enb 256 ltac:(lia)); lia).
    replace (cob / 256 * 256 + cob mod 256) with cob
      by (pose proof (Z.div_mod cob 256 ltac:(lia)); lia).
    repeat split.
Qed.

Lemma version_exchange_wire_format_witness :
  (exists r, request 7 = Return r /\ _content r = Some (AVERS_VERB ++ [x07])) /\
  (exists r payload,
     response 300 1 2 400 3 4 = Return r /\
     _content r = Some (SVERS_VERB ++ payload) /\
     en_build (fst (handle (SVERS_VERB ++ payload) (__init__ None))) = Some 300 /\
     co_minor (fst (handle (SVERS_VERB ++ payload) (__init__ None))) = Some 4).
Proof.
  pose proof (version_exchange_wire_format 7 300 1 2 400 3 4 (__init__ None)
                ltac:(lia) ltac:(lia) ltac:(lia) ltac:(lia) ltac:(lia) ltac:(lia)
                ltac:(lia)) as (_ & _ & (r & p & Hr & Hc & Hp) & (r' & p' & H') & _).
  split.
  - exists r. split; [exact Hr|].
    destruct p as [|b [|? ?]]; try discriminate. injection Hp as Hb.
    rewrite Hc. do 3 f_equal. rewrite <- (byte_of_val b), Hb. reflexivity.
  - exists r', p'. destruct H' as (A & B & _ & _ & E & _ & _ & _ & _ & F). auto.
Defined.

End VersionExchange.

(** ** Bit fields inside an integer window *)

Section BitFields.
Import Accessor.

Variables (off w : Z).
Hypotheses (Hoff : 0 <= off) (Hw : 0 <= w).

Lemma testbit_small (x k i : Z) :
  0 <= x < 2 ^ k -> k <= i -> Z.testbit x i = false.
Proof.
  intros Hx Hi. destruct (Z_lt_le_dec k 0) as [Hk|Hk].
  - rewrite Z.pow_neg_r in Hx by lia. lia.
  - rewrite <- (Z.mod_small x (2 ^ k)) by lia.
    apply Z.mod_pow2_bits_high. lia.
Qed.

Lemma small_of_testbit (x k : Z) :
  0 <= x -> 0 <= k -> (forall i, k <= i -> Z.testbit x i = false) -> x < 2 ^ k.
Proof.
  intros Hx Hk Hbits.
  assert (x = Z.land x (Z.ones k)) as ->.
  { apply Z.bits_inj'. intros i Hi. rewrite Z.land_spec, Z.testbit_ones by lia.
    destruct (Z.ltb_spec i k).
    - replace (0 <=? i) with true by (symmetry; apply Z.leb_le; lia).
      cbn. rewrite andb_true_r. reflexivity.
    - rewrite Hbits by lia. reflexivity. }
  rewrite Z.land_ones by lia. apply Z.mod_pos_bound. lia.
Qed.

Lemma testbit_extract (word i : Z) :
  0 <= i ->
  Z.testbit (extract_bits off w word) i = (i <? w) && Z.testbit word (i + off).
Proof.
  intros Hi. unfold extract_bits.
  rewrite Z.land_spec, Z.shiftr_spec, Z.testbit_ones by lia.
  replace (0 <=? i) with true by (symmetry; apply Z.leb_le; lia).
  cbn. apply andb_comm.
Qed.

Lemma testbit_update (word raw i : Z) :
  0 <= raw < 2 ^ w -> 0 <= i ->
  Z.testbit (update_bits off w word raw) i =
    if (off <=? i) && (i <? off + w) then Z.testbit raw (i - off) else Z.testbit word i.
Proof.
  intros Hraw Hi. unfold update_bits.
  rewrite Z.lor_spec, Z.land_spec, Z.lnot_spec, !Z.shiftl_spec, Z.testbit_ones by lia.
  destruct (Z.leb_spec off i) as [H1|H1]; cbn [andb].
  - replace (0 <=? i - off) with true by (symmetry; apply Z.leb_le; lia).
    replace (i - off <? w) with (i <? off + w)
      by (destruct (Z.ltb_spec i (off + w)), (Z.ltb_spec (i - off) w); lia || reflexivity).
    destruct (Z.ltb_spec i (off + w)) as [H2|H2]; cbn.
    + rewrite andb_false_r. reflexivity.
    + rewrite andb_true_r, (testbit_small raw w) by lia. apply orb_false_r.
  - replace (0 <=? i - off) with false by (symmetry; apply Z.leb_gt; lia).
    cbn. rewrite andb_true_r, (Z.testbit_neg_r raw) by lia. apply orb_false_r.
Qed.

Lemma extract_nonneg (word : Z) : 0 <= extract_bits off w word.
Proof.
  unfold extract_bits. apply Z.land_nonneg. right. rewrite Z.ones_equiv.
  pose proof (Z.pow_pos_nonneg 2 w ltac:(lia) Hw). lia.
Qed.

Lemma extract_bound (word : Z) : 0 <= extract_bits off w word < 2 ^ w.
Proof.
  unfold extract_bits. rewrite Z.land_ones by lia. apply Z.mod_pos_bound.
  apply Z.pow_pos_nonneg; lia.
Qed.

Lemma update_nonneg (word raw : Z) : 0 <= word -> 0 <= raw -> 0 <= update_bits off w word raw.
Proof.
  intros H1 H2. unfold update_bits. apply Z.lor_nonneg. split.
  - apply Z.land_nonneg. left. exact H1.
  - apply Z.shiftl_nonneg. exact H2.
Qed.

(** Writing back the bits just read changes nothing. *)
Lemma update_extract (word : Z) : update_bits off w word (extract_bits off w word) = word.
Proof.
  apply Z.bits_inj'. intros i Hi.
  rewrite testbit_update by (auto using extract_bound).
  destruct (Z.leb_spec off i) as [H1|H1]; cbn [andb]; [|reflexivity].
  destruct (Z.ltb_spec i (off + w)) as [H2|H2]; [|reflexivity].
  rewrite testbit_extract by lia.
  replace (i - off <? w) with true by (symmetry; apply Z.ltb_lt; lia).
  cbn. f_equal. lia.
Qed.

(** Reading the field just written gives the written value. *)
Lemma extract_update (word raw : Z) :
  0 <= raw < 2 ^ w -> extract_bits off w (update_bits off w word raw) = raw.
Proof.
  intros Hraw. apply Z.bits_inj'. intros i Hi.
  rewrite testbit_extract, testbit_update by lia.
  destruct (Z.ltb_spec i w) as [H|H]; cbn [andb].
  - replace ((off <=? i + off) && (i + off <? off + w)) with true
      by (symmetry; apply andb_true_iff; split; [apply Z.leb_le|apply Z.ltb_lt]; lia).
    f_equal. lia.
  - symmetry. apply (testbit_small raw w); lia.
Qed.

(** The written window still fits the bytes of the field. *)
Lemma update_bound (word raw k : Z) :
  0 <= word < 2 ^ k -> 0 <= raw < 2 ^ w -> off + w <= k ->
  0 <= update_bits off w word raw < 2 ^ k.
Proof.
  intros Hword Hraw Hk. split; [apply update_nonneg; lia|].
  apply small_of_testbit; [apply update_nonneg; lia|lia|].
  intros i Hi. rewrite testbit_update by lia.
  replace ((off <=? i) && (i <? off + w)) with false
    by (symmetry; apply andb_false_iff; right; apply Z.ltb_ge; lia).
  apply (testbit_small word k); lia.
Qed.

End BitFields.

(** A write to one field leaves a field with a disjoint bit range alone. *)
Lemma extract_update_other (off w off' w' word raw : Z) :
  0 <= off -> 0 <= w -> 0 <= off' -> 0 <= w' ->
  off + w <= off' \/ off' + w' <= off ->
  0 <= raw < 2 ^ w' ->
  Accessor.extract_bits off w (Accessor.update_bits off' w' word raw) =
  Accessor.extract_bits off w word.
Proof.
  intros Ho Hw Ho' Hw' Hdisj Hraw. apply Z.bits_inj'. intros i Hi.
  rewrite !testbit_extract by lia.
  destruct (Z.ltb_spec i w) as [H|H]; cbn [andb]; [|reflexivity].
  rewrite testbit_update by lia.
  replace ((off' <=? i + off) && (i + off <? off' + w')) with false; [reflexivity|].
  symmetry. apply andb_false_iff.
  destruct Hdisj; [left; apply Z.leb_gt|right; apply Z.ltb_ge]; lia.
Qed.

(** ** The Status Buffer: windows and splices *)

Section Windows.
Import Accessor.

Lemma length_splice (pos : nat) (data buffer : bytes) :
  (pos + length data <= length buffer)%nat ->
  length (splice pos data buffer) = length buffer.
Proof.
  intros H. unfold splice.
  rewrite !length_app, length_take, length_drop. lia.
Qed.

Lemma window_splice (pos : nat) (data buffer : bytes) :
  (pos + length data <= length buffer)%nat ->
  take (length data) (drop pos (splice pos data buffer)) = data.
Proof.
  intros H. unfold splice.
  rewrite drop_app_length' by (rewrite length_take; lia).
  apply take_app_length.
Qed.

Lemma splice_id (pos n : nat) (buffer : bytes) :
  (pos + n <= length buffer)%nat ->
  splice pos (take n (drop pos buffer)) buffer = buffer.
Proof.
  intros H. unfold splice.
  rewrite length_take, length_drop, Nat.min_l by lia.
  rewrite <- drop_drop, take_drop, take_drop. reflexivity.
Qed.

Lemma read_window_Some (pos n : nat) (buffer : bytes) (word : Z) :
  read_window pos n buffer = Some word ->
  (pos + n <= length buffer)%nat /\ word = be_decode (take n (drop pos buffer)).
Proof.
  unfold read_window. destruct (Nat.leb_spec (pos + n) (length buffer)); [|discriminate].
  intros [= <-]. split; [assumption|reflexivity].
Qed.

Lemma read_window_in (pos n : nat) (buffer : bytes) :
  (pos + n <= length buffer)%nat ->
  read_window pos n buffer = Some (be_decode (take n (drop pos buffer))).
Proof.
  intros H. unfold read_window.
  destruct (Nat.leb_spec (pos + n) (length buffer)); [reflexivity|lia].
Qed.

Lemma length_window (pos n : nat) (buffer : bytes) :
  (pos + n <= length buffer)%nat -> length (take n (drop pos buffer)) = n.
Proof. intros H. rewrite length_take, length_drop. lia. Qed.

Lemma pow_bytes (n : nat) : 256 ^ Z.of_nat n = 2 ^ (8 * Z.of_nat n).
Proof. rewrite Z.pow_mul_r by lia. reflexivity. Qed.

Lemma read_window_range (pos n : nat) (buffer : bytes) (word : Z) :
  read_window pos n buffer = Some word -> 0 <= word < 256 ^ Z.of_nat n.
Proof.
  intros H. apply read_window_Some in H as [Hin ->].
  pose proof (be_decode_range (take n (drop pos buffer))) as Hr.
  rewrite length_window in Hr by exact Hin. exact Hr.
Qed.

Lemma serialize_fits (n : nat) (v : Z) :
  0 <= v < 256 ^ Z.of_nat n -> serialize n v = Some (be_encode n v).
Proof.
  intros Hv. unfold serialize.
  replace ((0 <=? v) && (v <? 256 ^ Z.of_nat n)) with true; [reflexivity|].
  symmetry. apply andb_true_iff. split; [apply Z.leb_le|apply Z.ltb_lt]; lia.
Qed.

Lemma read_window_splice (pos n : nat) (buffer : bytes) (v : Z) :
  (pos + n <= length buffer)%nat -> 0 <= v < 256 ^ Z.of_nat n ->
  read_window pos n (splice pos (be_encode n v) buffer) = Some v.
Proof.
  intros Hin Hv.
  pose proof (length_be_encode n v) as Hlen.
  rewrite read_window_in by (rewrite length_splice by (rewrite Hlen; lia); lia).
  rewrite <- Hlen at 1. rewrite window_splice by (rewrite Hlen; lia).
  rewrite be_decode_encode by exact Hv. reflexivity.
Qed.

Lemma span_covers (off w : nat) : (off + w <= 8 * span off w)%nat.
Proof.
  unfold span. pose proof (Nat.div_mod (off + w + 7) 8 ltac:(lia)) as Hd.
  pose proof (Nat.mod_upper_bound (off + w + 7) 8 ltac:(lia)). lia.
Qed.

Lemma index_of_sound (s : string) (l : list string) (i : nat) :
  index_of s l = Some i -> l !! i = Some s.
Proof.
  revert i. induction l as [|x l IH]; intros i H; cbn in H; [discriminate|].
  destruct (String.eqb_spec x s) as [->|Hne].
  - injection H as <-. reflexivity.
  - destruct (index_of s l) as [j|]; [|discriminate].
    injection H as <-. cbn. apply IH. reflexivity.
Qed.

Lemma index_of_first (s : string) (l : list string) (i j : nat) :
  index_of s l = Some i -> (j < i)%nat -> l !! j <> Some s.
Proof.
  revert i j. induction l as [|x l IH]; intros i j H Hj; cbn in H; [discriminate|].
  destruct (String.eqb_spec x s) as [->|Hne].
  - injection H as <-. lia.
  - destruct (index_of s l) as [k|] eqn:Ek; [|discriminate].
    injection H as <-. destruct j as [|j]; cbn.
    + congruence.
    + apply (IH k); [reflexivity|lia].
Qed.

Lemma index_of_None (s : string) (l : list string) :
  index_of s l = None <-> s ∉ l.
Proof.
  induction l as [|x l IH]; cbn.
  - split; [intros _; apply not_elem_of_nil|reflexivity].
  - destruct (String.eqb_spec x s) as [->|Hne].
    + split; [discriminate|]. intros H. exfalso. apply H. left.
    + rewrite not_elem_of_cons. destruct (index_of s l); cbn.
      * split; [discriminate|]. intros [_ H]. apply IH in H. discriminate.
      * split; [|reflexivity]. intros _. split; [congruence|]. apply IH. reflexivity.
Qed.

Lemma index_of_NoDup (s : string) (l : list string) (i : nat) :
  NoDup l -> l !! i = Some s -> index_of s l = Some i.
Proof.
  intros Hnd. revert i. induction Hnd as [|x l Hx Hnd IH]; intros i H; [discriminate|].
  cbn. destruct i as [|i]; cbn in H.
  - injection H as ->. rewrite String.eqb_refl. reflexivity.
  - destruct (String.eqb_spec x s) as [->|Hne].
    + exfalso. apply Hx. apply list_elem_of_lookup. eauto.
    + rewrite (IH i H). reflexivity.
Qed.

End Windows.

(** ** The unit tests of the accessor, run on the codec *)

Section AccessorTests.
Import Accessor TestAccessor.

Example test_read_byte : get PackBootRev status_block = Return (VInt 5).
Proof. reflexivity. Qed.

Example test_write_byte :
  snd (set PackBootRev_rw (VInt 6) status_block) = Return (5%nat, [x06]).
Proof. reflexivity. Qed.

Example test_read_word : get RealSetPointG status_block = Return (VInt 702).
Proof. reflexivity. Qed.

Example test_write_word :
  snd (set RealSetPointG_rw (VInt 726) status_block) = Return (17%nat, [x02; xd6]).
Proof. reflexivity. Qed.

Example test_read_enum : get PackType status_block = Return (VStr "inXM").
Proof. reflexivity. Qed.

Example test_write_enum :
  snd (set PackType_rw (VStr "inYJ") status_block) = Return (6%nat, [x0c]).
Proof. reflexivity. Qed.

Example test_read_bool : get RelayStuck status_block = Return (VBool false).
Proof. reflexivity. Qed.

Example test_write_bool :
  snd (set RelayStuck_rw (VBool true) status_block) = Return (2%nat, [x42]).
Proof. reflexivity. Qed.

Example test_read_bitpos_enum : get UdP3 status_block = Return (VStr "OFF").
Proof. reflexivity. Qed.

Example test_write_bitpos_enum :
  let (b1, r1) := set UdP3 (VStr "HI") status_block in
  let (b2, r2) := set UdP3 (VStr "LO") b1 in
  let (b3, r3) := set UdP3 (VStr "OFF") b2 in
  r1 = Return (3%nat, [x23]) /\ r2 = Return (3%nat, [x13]) /\ r3 = Return (3%nat, [x03]).
Proof. repeat split. Qed.

Example test_read_sized_bitpos_enum : get UdP2_19 status_block = Return (VStr "LO").
Proof. reflexivity. Qed.

Example test_write_sized_bitpos_enum :
  let (b1, r1) := set UdP2_19 (VStr "HI") status_block in
  let (b2, r2) := set UdP2_19 (VStr "LO") b1 in
  let (b3, r3) := set UdP2_19 (VStr "OFF") b2 in
  r1 = Return (19%nat, [x21; x70]) /\ r2 = Return (19%nat, [x11; x70]) /\
  r3 = Return (19%nat, [x01; x70]).
Proof. repeat split. Qed.

Example test_multiple_write_bitpos_enum :
  let (b1, r1) := set UdP2 (VStr "HI") status_block in
  let (b2, r2) := set UdP1 (VStr "HI") b1 in
  r1 = Return (21%nat, [x20; x00]) /\ r2 = Return (21%nat, [xa0; x00]) /\
  get UdP1 b2 = Return (VStr "HI") /\ get UdP2 b2 = Return (VStr "HI").
Proof. repeat split. Qed.

End AccessorTests.

(** ** Failing writes *)

Section FailingWrites.
Import Accessor TestAccessor.

(** C6: a write to a field without the write permission fails with
    [PermissionError], whatever the value, and the Status Buffer is the one
    it was. *)
Theorem set_read_only_fails (f : field) (v : value) (buffer : bytes)
    (Hro : writable f = false) :
  set f v buffer = (buffer, Raise PermissionError).
Proof. unfold set. rewrite Hro. reflexivity. Qed.

Lemma set_read_only_fails_witness :
  writable PackBootRev = false /\
  set PackBootRev (VInt 6) status_block = (status_block, Raise PermissionError).
Proof.
  split; [reflexivity|].
  apply (set_read_only_fails PackBootRev (VInt 6) status_block). reflexivity.
Defined.

(** C7, as stated, fails on a read-only [Enum]: the permission check comes
    first, so a value outside the item list meets [PermissionError], not
    [ValueError]. *)
Lemma set_enum_not_member_read_only :
  fkind PackType = KEnum /\
  index_of "Not A Member" (items PackType) = None /\
  set PackType (VStr "Not A Member") status_block = (status_block, Raise PermissionError) /\
  snd (set PackType (VStr "Not A Member") status_block) <> Raise ValueError.
Proof. repeat split. discriminate. Qed.

(** C7, amended: on a writable [Enum] field, a value that is not a member of
    the item list fails with [ValueError] and the Status Buffer is the one it
    was; a member is replaced by its 0-based index in the item list (the
    position of its first occurrence), and this index is what is encoded. *)
Theorem set_enum_membership (f : field) (v : value) (buffer : bytes)
    (Hkind : fkind f = KEnum) (Hrw : writable f = true) :
  ((forall s, v = VStr s -> s ∉ items f) ->
     set f v buffer = (buffer, Raise ValueError)) /\
  (forall s i, v = VStr s -> index_of s (items f) = Some i ->
     items f !! i = Some s /\
     (forall j, (j < i)%nat -> items f !! j <> Some s) /\
     resolve f v = Return (Z.of_nat i) /\
     set f v buffer =
       match encode f (Z.of_nat i) buffer with
       | Return data => (splice (byte_offset f) data buffer, Return (byte_offset f, data))
       | Raise e => (buffer, Raise e)
       end).
Proof.
  split.
  - intros Hnot. unfold set, resolve. rewrite Hrw, Hkind. cbn.
    destruct v as [z|b|s]; try reflexivity.
    specialize (Hnot s eq_refl). apply index_of_None in Hnot.
    rewrite Hnot. reflexivity.
  - intros s i -> Hi. split; [eauto using index_of_sound|].
    split; [eauto using index_of_first|].
    assert (resolve f (VStr s) = Return (Z.of_nat i)) as Hres
      by (unfold resolve; rewrite Hkind, Hi; reflexivity).
    split; [exact Hres|]. unfold set. rewrite Hrw, Hres. reflexivity.
Qed.

Lemma set_enum_membership_witness :
  set PackType_rw (VStr "Not A Member") status_block = (status_block, Raise ValueError) /\
  resolve PackType_rw (VStr "inYJ") = Return 12.
Proof.
  pose proof (set_enum_membership PackType_rw (VStr "Not A Member") status_block
                eq_refl eq_refl) as [H1 _].
  pose proof (set_enum_membership PackType_rw (VStr "inYJ") status_block
                eq_refl eq_refl) as [_ H2].
  split.
  - apply H1. intros s [= <-]. apply index_of_None. reflexivity.
  - apply (H2 "inYJ"%string 12%nat eq_refl eq_refl).
Defined.

End FailingWrites.

(** ** The default width of a bit-positioned [Enum] *)

Section DefaultWidth.
Import Accessor TestAccessor.

Lemma log2_up_least (n : Z) (w' : Z) :
  0 <= w' -> n <= 2 ^ w' -> Z.log2_up n <= w'.
Proof.
  intros Hw' Hn. destruct (Z_le_gt_dec n 1) as [Hsmall|Hbig].
  - rewrite Z.log2_up_eqn0 by exact Hsmall. exact Hw'.
  - apply Z.log2_up_le_pow2; lia.
Qed.

Lemma log2_up_covers (n : Z) : n <= 2 ^ Z.log2_up n.
Proof.
  destruct (Z_le_gt_dec n 1) as [Hsmall|Hbig].
  - rewrite Z.log2_up_eqn0 by exact Hsmall. cbn. lia.
  - apply Z.log2_up_spec. lia.
Qed.

(** C8: a bit-positioned [Enum] without explicit [bit_width] is masked, on
    [get] and on [set] alike, with the width [ceil(log2(len(item_list)))]:
    the least [w] such that the item list has at most [2^w] names. *)
Theorem bitpos_enum_default_width
    (f : field) (off : nat) (buffer : bytes) (raw : Z)
    (Hkind : fkind f = KEnum) (Hoff : bit_offset f = Some off)
    (Hwidth : bit_width f = None) :
  let n := Z.of_nat (length (items f)) in
  let w := Z.log2_up n in
  (n <= 2 ^ w /\ forall w', 0 <= w' -> n <= 2 ^ w' -> w <= w') /\
  Z.of_nat (width f) = w /\
  get_raw f buffer =
    match read_window (byte_offset f) (span off (Z.to_nat w)) buffer with
    | Some word => Return (Z.land (Z.shiftr word (Z.of_nat off)) (2 ^ w - 1))
    | None => Raise SchemaError
    end /\
  encode f raw buffer =
    match read_window (byte_offset f) (span off (Z.to_nat w)) buffer with
    | Some word =>
        match serialize (span off (Z.to_nat w))
                (Z.lor (Z.land word (Z.lnot (Z.shiftl (2 ^ w - 1) (Z.of_nat off))))
                       (Z.shiftl raw (Z.of_nat off))) with
        | Some data => Return data
        | None => Raise ValueError
        end
    | None => Raise SchemaError
    end.
Proof.
  intros n w.
  assert (Hw : width f = Z.to_nat w)
    by (unfold width, default_width; rewrite Hkind, Hwidth; reflexivity).
  assert (Hw0 : 0 <= w) by apply Z.log2_up_nonneg.
  assert (Hones : Z.ones (Z.of_nat (width f)) = 2 ^ w - 1)
    by (rewrite Hw, Z2Nat.id, Z.ones_equiv by exact Hw0; lia).
  split; [split; [apply log2_up_covers|intros; apply log2_up_least; assumption]|].
  split; [rewrite Hw; apply Z2Nat.id, Hw0|].
  split.
  - unfold get_raw, extract_bits. rewrite Hoff, Hones, Hw. reflexivity.
  - unfold encode, update_bits. rewrite Hoff, Hones, Hw. reflexivity.
Qed.

Lemma bitpos_enum_default_width_witness :
  Z.of_nat (width UdP3) = 2 /\
  get_raw UdP3 status_block =
    match read_window 3 1 status_block with
    | Some word => Return (Z.land (Z.shiftr word 4) 3)
    | None => Raise SchemaError
    end.
Proof.
  pose proof (bitpos_enum_default_width UdP3 4 status_block 0 eq_refl eq_refl eq_refl)
    as [_ [H1 [H2 _]]].
  split; [exact H1|exact H2].
Defined.

End DefaultWidth.

(** ** Writing back what was read *)

Section WriteBack.
Import Accessor.

Lemma encode_window (n pos : nat) (buffer : bytes) (word : Z) :
  read_window pos n buffer = Some word ->
  serialize n word = Some (take n (drop pos buffer)).
Proof.
  intros H. rewrite serialize_fits by (eapply read_window_range; exact H).
  apply read_window_Some in H as [Hin ->].
  rewrite <- (length_window pos n buffer Hin) at 1.
  rewrite be_encode_decode. reflexivity.
Qed.

(** Encoding the masked integer just read gives the bytes already there. *)
Lemma encode_get_raw (f : field) (buffer : bytes) (raw : Z) :
  get_raw f buffer = Return raw ->
  0 <= raw /\
  (fst (window f) + snd (window f) <= length buffer)%nat /\
  encode f raw buffer = Return (take (snd (window f)) (drop (fst (window f)) buffer)).
Proof.
  unfold get_raw, encode, window. destruct (bit_offset f) as [off|].
  - destruct (read_window _ _ buffer) as [word|] eqn:Hread; [|discriminate].
    intros [= <-]. cbn [fst snd].
    split; [apply extract_nonneg; lia|].
    split; [apply read_window_Some in Hread; tauto|].
    rewrite update_extract by lia.
    rewrite (encode_window _ _ _ _ Hread). reflexivity.
  - destruct (fkind f) eqn:Hk; try discriminate;
      (destruct (read_window _ _ buffer) as [word|] eqn:Hread; [|discriminate]);
      intros [= <-]; cbn [fst snd];
      pose proof (read_window_Some _ _ _ _ Hread) as [Hin _];
      (split; [apply (read_window_range _ _ _ _ Hread)|]);
      (split; [exact Hin|]);
      destruct (Nat.leb_spec (byte_offset f + raw_size f) (length buffer)); try lia;
      rewrite (encode_window _ _ _ _ Hread); reflexivity.
Qed.

(** The value read resolves to the masked integer it was decoded from. *)
Lemma resolve_get (f : field) (buffer : bytes) (v : value) (raw : Z) :
  NoDup (items f) ->
  get_raw f buffer = Return raw -> get f buffer = Return v ->
  resolve f v = Return raw.
Proof.
  intros Hnd Hraw Hget. unfold get, decode in Hget. rewrite Hraw in Hget.
  pose proof (encode_get_raw f buffer raw Hraw) as [Hpos _].
  unfold resolve. destruct (fkind f) eqn:Hk.
  - injection Hget as <-. reflexivity.
  - injection Hget as <-. reflexivity.
  - destruct (items f !! Z.to_nat raw) as [s|] eqn:Hs; [|discriminate].
    injection Hget as <-. rewrite (index_of_NoDup s (items f) _ Hnd Hs).
    rewrite Z2Nat.id by exact Hpos. reflexivity.
  - injection Hget as <-. f_equal.
    unfold get_raw in Hraw. destruct (bit_offset f) as [off|]; [|rewrite Hk in Hraw; discriminate].
    destruct (read_window _ _ buffer) as [word|]; [|discriminate].
    injection Hraw as <-. unfold width. rewrite Hk.
    assert (0 <= extract_bits (Z.of_nat off) (Z.of_nat 1) word < 2 ^ Z.of_nat 1) as Hb
      by (apply extract_bound; lia).
    change (2 ^ Z.of_nat 1) with 2 in Hb.
    destruct (Z.eqb_spec (extract_bits (Z.of_nat off) (Z.of_nat 1) word) 0) as [->|Hne];
      cbn; [reflexivity|lia].
Qed.

(** C2, as stated, fails when the item list of an [Enum] repeats a name: the
    name read from the second position is written back as the first. *)
Lemma set_get_changes_repeated_item :
  let f := mkField "Mode" KEnum 0 None None (Some ["A"; "A"]%string) true in
  writable f = true /\
  get f [x01] = Return (VStr "A") /\
  set f (VStr "A") [x01] = ([x00], Return (0%nat, [x00])) /\
  fst (set f (VStr "A") [x01]) <> [x01].
Proof. repeat split. discriminate. Qed.

(** C2, amended: for a writable field whose item list repeats no name,
    writing back the value just read succeeds and leaves the Status Buffer
    byte for byte as it was; the request carries the bytes already there. *)
Theorem set_get_unchanged (f : field) (buffer : bytes) (v : value)
    (Hrw : writable f = true) (Hnd : NoDup (items f))
    (Hget : get f buffer = Return v) :
  set f v buffer =
    (buffer, Return (byte_offset f, take (snd (window f)) (drop (byte_offset f) buffer))).
Proof.
  destruct (get_raw f buffer) as [raw|e] eqn:Hraw;
    [|unfold get in Hget; rewrite Hraw in Hget; discriminate].
  pose proof (resolve_get f buffer v raw Hnd Hraw Hget) as Hres.
  pose proof (encode_get_raw f buffer raw Hraw) as [_ [Hin Henc]].
  assert (Hpos : fst (window f) = byte_offset f)
    by (unfold window; destruct (bit_offset f); reflexivity).
  rewrite Hpos in *.
  unfold set. rewrite Hrw, Hres, Henc. cbn [negb].
  rewrite splice_id by exact Hin. reflexivity.
Qed.

Lemma set_get_unchanged_witness :
  get TestAccessor.UdP2_19 TestAccessor.status_block = Return (VStr "LO") /\
  fst (set TestAccessor.UdP2_19 (VStr "LO") TestAccessor.status_block) =
    TestAccessor.status_block.
Proof.
  split; [reflexivity|].
  rewrite (set_get_unchanged TestAccessor.UdP2_19 TestAccessor.status_block (VStr "LO")).
  - reflexivity.
  - reflexivity.
  - unfold items, TestAccessor.UdP2_19, TestAccessor.udp_items. cbn.
    repeat (apply NoDup_cons; split; [rewrite ?elem_of_cons, elem_of_nil; intuition discriminate|]).
    apply NoDup_nil. exact I.
  - reflexivity.
Defined.

End WriteBack.

(** ** Bit-packed fields that share their bytes *)

Section SharedBytes.
Import Accessor TestAccessor.

(** What a storable value resolves to. *)
Lemma storable_resolve (f : field) (v : value) :
  storable f v = true ->
  exists raw, resolve f v = Return raw /\
              0 <= raw < 2 ^ Z.of_nat (width f) /\
              decode f raw = Return v.
Proof.
  unfold storable, resolve, decode, width.
  destruct (fkind f) eqn:Hk, v as [z|b|s]; try discriminate; intros H.
  - exists z. apply andb_true_iff in H as [H1 H2]. repeat split; lia.
  - exists z. apply andb_true_iff in H as [H1 H2]. repeat split; lia.
  - destruct (index_of s (items f)) as [i|] eqn:Hi; [|discriminate].
    exists (Z.of_nat i). split; [reflexivity|]. split; [lia|].
    rewrite Nat2Z.id, (index_of_sound _ _ _ Hi). reflexivity.
  - exists (Z.b2z b). split; [reflexivity|]. split; [destruct b; cbn; lia|].
    destruct b; reflexivity.
Qed.

(** One bit-packed write, spelled out on the window. *)
Lemma set_bit_packed (f : field) (off : nat) (buffer : bytes) (v : value) (raw word : Z) :
  writable f = true -> bit_offset f = Some off ->
  resolve f v = Return raw -> 0 <= raw < 2 ^ Z.of_nat (width f) ->
  read_window (byte_offset f) (span off (width f)) buffer = Some word ->
  let word' := update_bits (Z.of_nat off) (Z.of_nat (width f)) word raw in
  let data := be_encode (span off (width f)) word' in
  set f v buffer = (splice (byte_offset f) data buffer, Return (byte_offset f, data)) /\
  read_window (byte_offset f) (span off (width f)) (splice (byte_offset f) data buffer)
    = Some word' /\
  length (splice (byte_offset f) data buffer) = length buffer.
Proof.
  intros Hrw Hoff Hres Hraw Hread word' data.
  pose proof (read_window_range _ _ _ _ Hread) as Hword.
  pose proof (read_window_Some _ _ _ _ Hread) as [Hin _].
  assert (Hfit : 0 <= word' < 256 ^ Z.of_nat (span off (width f))).
  { rewrite pow_bytes in *. apply update_bound; try lia.
    pose proof (span_covers off (width f)). lia. }
  split; [|split].
  - unfold set, encode. rewrite Hrw, Hres, Hoff, Hread. cbn [negb].
    fold word'. rewrite serialize_fits by exact Hfit. reflexivity.
  - apply read_window_splice; assumption.
  - apply length_splice. unfold data. rewrite length_be_encode. exact Hin.
Qed.

Lemma get_bit_packed (f : field) (off : nat) (buffer : bytes) (word : Z) :
  bit_offset f = Some off ->
  read_window (byte_offset f) (span off (width f)) buffer = Some word ->
  get f buffer = decode f (extract_bits (Z.of_nat off) (Z.of_nat (width f)) word).
Proof. intros Hoff Hread. unfold get, get_raw. rewrite Hoff, Hread. reflexivity. Qed.

End SharedBytes.

(** ** Bit-packed fields and the bits of the buffer *)

Section BufferBits.
Import Accessor TestAccessor.

Lemma testbit_concat (a b k i : Z) :
  0 <= k -> 0 <= b < 2 ^ k -> 0 <= i ->
  Z.testbit (a * 2 ^ k + b) i = if i <? k then Z.testbit b i else Z.testbit a (i - k).
Proof.
  intros Hk Hb Hi. destruct (Z.ltb_spec i k) as [H|H].
  - rewrite <- (Z.mod_pow2_bits_low (a * 2 ^ k + b) k i) by lia.
    rewrite Z.add_comm, Z.mod_add, Z.mod_small by lia. reflexivity.
  - replace i with ((i - k) + k) at 1 by lia.
    rewrite <- Z.div_pow2_bits by lia.
    rewrite Z.div_add_l, Z.div_small by lia. f_equal. lia.
Qed.

Lemma be_decode_app (a b : bytes) :
  be_decode (a ++ b) = be_decode a * 256 ^ Z.of_nat (length b) + be_decode b.
Proof.
  induction b as [|x b IH] using rev_ind.
  - rewrite app_nil_r. cbn. lia.
  - rewrite app_assoc, !be_decode_snoc, IH, length_app, Nat2Z.inj_add.
    cbn [length]. rewrite Z.pow_add_r by lia. change (256 ^ Z.of_nat 1) with 256. ring.
Qed.

Lemma be_decode_bound (bs : bytes) : 0 <= be_decode bs < 2 ^ (8 * Z.of_nat (length bs)).
Proof. rewrite <- pow_bytes. apply be_decode_range. Qed.

(** The bits of the whole buffer, read as one big-endian integer. *)
Lemma be_decode_testbit (buffer : bytes) (i : Z) :
  0 <= i ->
  Z.testbit (be_decode buffer) i = buffer_bit buffer (8 * Z.of_nat (length buffer) - 1 - i).
Proof.
  revert i. induction buffer as [|b bs IH] using rev_ind; intros i Hi.
  - unfold buffer_bit. cbn. rewrite Z.testbit_0_l.
    destruct (_ <? 0); reflexivity.
  - rewrite be_decode_snoc, length_app, Nat2Z.inj_add. cbn [length].
    change 256 with (2 ^ 8). rewrite testbit_concat by (pose proof (byte_val_range b); lia).
    unfold buffer_bit.
    destruct (Z.ltb_spec i 8) as [H|H].
    + replace (8 * (Z.of_nat (length bs) + Z.of_nat 1) - 1 - i)
        with ((7 - i) + Z.of_nat (length bs) * 8) by lia.
      rewrite Z.div_add, Z.mod_add, Z.div_small, Z.mod_small by lia.
      destruct (Z.ltb_spec (7 - i + Z.of_nat (length bs) * 8) 0); [lia|].
      rewrite Z.add_0_l, Nat2Z.id, lookup_app_r, Nat.sub_diag by lia. cbn.
      f_equal. lia.
    + rewrite IH by lia. unfold buffer_bit.
      replace (8 * (Z.of_nat (length bs) + Z.of_nat 1) - 1 - i)
        with (8 * Z.of_nat (length bs) - 1 - (i - 8)) by lia.
      set (p := 8 * Z.of_nat (length bs) - 1 - (i - 8)).
      destruct (Z.ltb_spec p 0); [reflexivity|].
      assert (Hp : (Z.to_nat (p / 8) < length bs)%nat).
      { apply Nat2Z.inj_lt. rewrite Z2Nat.id by (apply Z.div_pos; lia).
        apply Z.div_lt_upper_bound; lia. }
      rewrite lookup_app_l by exact Hp. reflexivity.
Qed.

(** A window is a run of bits of the whole buffer. *)
Lemma window_of_buffer (pos n : nat) (buffer : bytes) :
  (pos + n <= length buffer)%nat ->
  be_decode (take n (drop pos buffer)) =
  extract_bits (8 * Z.of_nat (length buffer - pos - n)) (8 * Z.of_nat n) (be_decode buffer).
Proof.
  intros Hin.
  set (A := take pos buffer). set (W := take n (drop pos buffer)).
  set (B := drop n (drop pos buffer)).
  assert (Hbuf : buffer = A ++ W ++ B)
    by (unfold A, W, B; rewrite (take_drop n), (take_drop pos); reflexivity).
  assert (HB : length B = (length buffer - pos - n)%nat)
    by (unfold B; rewrite !length_drop; lia).
  assert (HW : length W = n) by (apply length_window; exact Hin).
  pose proof (be_decode_bound W) as HWb. pose proof (be_decode_bound B) as HBb.
  rewrite HW in HWb. rewrite HB in HBb.
  rewrite Hbuf at 2. rewrite app_assoc, be_decode_app, be_decode_app, HB, HW, !pow_bytes.
  apply Z.bits_inj'. intros i Hi.
  rewrite testbit_extract by lia.
  rewrite testbit_concat by lia.
  replace (i + 8 * Z.of_nat (length buffer - pos - n) <?
           8 * Z.of_nat (length buffer - pos - n)) with false
    by (symmetry; apply Z.ltb_ge; lia).
  replace (i + 8 * Z.of_nat (length buffer - pos - n) -
           8 * Z.of_nat (length buffer - pos - n)) with i by lia.
  rewrite testbit_concat by lia.
  destruct (Z.ltb_spec i (8 * Z.of_nat n)); cbn [andb]; [reflexivity|].
  apply (testbit_small _ (8 * Z.of_nat n)); lia.
Qed.

(** A splice replaces that run of bits. *)
Lemma buffer_of_splice (pos : nat) (data buffer : bytes) :
  (pos + length data <= length buffer)%nat ->
  be_decode (splice pos data buffer) =
  update_bits (8 * Z.of_nat (length buffer - pos - length data))
              (8 * Z.of_nat (length data)) (be_decode buffer) (be_decode data).
Proof.
  intros Hin. set (n := length data) in *.
  set (A := take pos buffer). set (W := take n (drop pos buffer)).
  set (B := drop (pos + n) buffer).
  assert (Hbuf : buffer = A ++ W ++ B).
  { unfold A, W, B. rewrite <- drop_drop, (take_drop n), (take_drop pos). reflexivity. }
  assert (HB : length B = (length buffer - pos - n)%nat)
    by (unfold B; rewrite length_drop; lia).
  assert (HW : length W = n) by (apply length_window; exact Hin).
  pose proof (be_decode_bound W) as HWb. pose proof (be_decode_bound B) as HBb.
  pose proof (be_decode_bound data) as HDb. fold n in HDb.
  rewrite HW in HWb. rewrite HB in HBb.
  unfold splice. fold n A B.
  rewrite Hbuf at 2.
  rewrite !app_assoc, !be_decode_app, HB, HW. fold n. rewrite !pow_bytes.
  apply Z.bits_inj'. intros i Hi.
  rewrite testbit_update by lia.
  set (g := 8 * Z.of_nat (length buffer - pos - n)) in *.
  set (m := 8 * Z.of_nat n) in *.
  assert (Hg : 0 <= g) by (unfold g; lia).
  assert (Hm : 0 <= m) by (unfold m; lia).
  rewrite (testbit_concat (be_decode A * 2 ^ m + be_decode data)) by lia.
  rewrite (testbit_concat (be_decode A * 2 ^ m + be_decode W)) by lia.
  destruct (Z.ltb_spec i g) as [H1|H1].
  - replace (g <=? i) with false by (symmetry; apply Z.leb_gt; lia).
    reflexivity.
  - replace (g <=? i) with true by (symmetry; apply Z.leb_le; lia). cbn [andb].
    rewrite !testbit_concat by lia.
    destruct (Z.ltb_spec (i - g) m), (Z.ltb_spec i (g + m)); lia || reflexivity.
Qed.

Lemma extract_extract (g n off w word : Z) :
  0 <= g -> 0 <= off -> 0 <= w -> off + w <= n ->
  extract_bits off w (extract_bits g n word) = extract_bits (g + off) w word.
Proof.
  intros Hg Ho Hw Hn. apply Z.bits_inj'. intros i Hi.
  rewrite !testbit_extract by lia.
  destruct (Z.ltb_spec i w); cbn [andb]; [|reflexivity].
  replace (i + off <? n) with true by (symmetry; apply Z.ltb_lt; lia).
  cbn [andb]. f_equal. lia.
Qed.

Lemma update_update (g n off w word raw : Z) :
  0 <= g -> 0 <= off -> 0 <= w -> off + w <= n -> 0 <= raw < 2 ^ w ->
  update_bits g n word (update_bits off w (extract_bits g n word) raw) =
  update_bits (g + off) w word raw.
Proof.
  intros Hg Ho Hw Hn Hraw.
  assert (Hinner : 0 <= update_bits off w (extract_bits g n word) raw < 2 ^ n)
    by (apply update_bound; try lia; apply extract_bound; lia).
  apply Z.bits_inj'. intros i Hi.
  rewrite (testbit_update g n), (testbit_update (g + off) w) by lia.
  destruct (Z.leb_spec g i) as [H1|H1]; cbn [andb].
  - destruct (Z.ltb_spec i (g + n)) as [H2|H2].
    + rewrite testbit_update, testbit_extract by lia.
      replace (i - g <? n) with true by (symmetry; apply Z.ltb_lt; lia). cbn [andb].
      replace ((off <=? i - g) && (i - g <? off + w))
        with ((g + off <=? i) && (i <? g + off + w))
        by (destruct (Z.leb_spec off (i - g)), (Z.leb_spec (g + off) i),
                     (Z.ltb_spec (i - g) (off + w)), (Z.ltb_spec i (g + off + w));
            lia || reflexivity).
      destruct ((g + off <=? i) && (i <? g + off + w)); f_equal; lia.
    + replace ((g + off <=? i) && (i <? g + off + w)) with false; [reflexivity|].
      symmetry. apply andb_false_iff. right. apply Z.ltb_ge. lia.
  - replace ((g + off <=? i) && (i <? g + off + w)) with false; [reflexivity|].
    symmetry. apply andb_false_iff. left. apply Z.leb_gt. lia.
Qed.

Lemma buffer_bit_outside (buffer : bytes) (p : Z) :
  p < 0 \/ 8 * Z.of_nat (length buffer) <= p -> buffer_bit buffer p = false.
Proof.
  intros H. unfold buffer_bit. destruct (Z.ltb_spec p 0) as [Hp|Hp]; [reflexivity|].
  rewrite lookup_ge_None_2; [reflexivity|].
  apply Nat2Z.inj_le. rewrite Z2Nat.id by (apply Z.div_pos; lia).
  apply Z.div_le_lower_bound; lia.
Qed.

(** Two buffers of the same length whose integers differ by an update of
    [w] bits agree on every bit outside the updated run. *)
Lemma buffer_bit_update (b b' : bytes) (g w raw : Z) :
  length b' = length b -> 0 <= g -> 0 <= w -> 0 <= raw < 2 ^ w ->
  be_decode b' = update_bits g w (be_decode b) raw ->
  forall p,
    ~ (8 * Z.of_nat (length b) - g - w <= p < 8 * Z.of_nat (length b) - g) ->
    buffer_bit b' p = buffer_bit b p.
Proof.
  intros Hlen Hg Hw Hraw Hdec p Hp.
  destruct (Z_lt_le_dec p 0) as [H0|H0];
    [rewrite !buffer_bit_outside by lia; reflexivity|].
  destruct (Z_le_gt_dec (8 * Z.of_nat (length b)) p) as [H1|H1];
    [rewrite !buffer_bit_outside by lia; reflexivity|].
  assert (Hbit : forall c : bytes, length c = length b ->
            buffer_bit c p = Z.testbit (be_decode c) (8 * Z.of_nat (length b) - 1 - p)).
  { intros c Hc. rewrite be_decode_testbit by lia. f_equal. lia. }
  rewrite (Hbit b' Hlen), (Hbit b eq_refl).
  rewrite Hdec, testbit_update by lia.
  set (i := 8 * Z.of_nat (length b) - 1 - p).
  replace ((g <=? i) && (i <? g + w)) with false; [reflexivity|].
  symmetry. apply andb_false_iff. unfold i.
  destruct (Z_le_gt_dec g (8 * Z.of_nat (length b) - 1 - p));
    [right; apply Z.ltb_ge|left; apply Z.leb_gt]; lia.
Qed.

(** The place of a field in the integer of the whole buffer. *)
Lemma field_place (f : field) (off : nat) (buffer : bytes) :
  bit_offset f = Some off ->
  (byte_offset f + snd (window f) <= length buffer)%nat ->
  snd (window f) = span off (width f) /\
  8 * Z.of_nat (length buffer) - bit_end f =
  8 * Z.of_nat (length buffer - byte_offset f - span off (width f)) + Z.of_nat off.
Proof.
  unfold bit_end, window. intros ->. cbn [snd default from_option id]. intros Hin.
  split; [reflexivity|]. lia.
Qed.

(** A bit-packed read, on the integer of the whole buffer. *)
Lemma get_whole (f : field) (off : nat) (buffer : bytes) :
  bit_offset f = Some off ->
  (byte_offset f + snd (window f) <= length buffer)%nat ->
  get f buffer =
  decode f (extract_bits (8 * Z.of_nat (length buffer) - bit_end f)
                         (Z.of_nat (width f)) (be_decode buffer)).
Proof.
  intros Hoff Hin. destruct (field_place f off buffer Hoff Hin) as [Hn Hg].
  rewrite Hn in Hin.
  rewrite (get_bit_packed f off buffer _ Hoff (read_window_in _ _ _ Hin)).
  rewrite window_of_buffer by exact Hin.
  pose proof (span_covers off (width f)).
  rewrite extract_extract by lia. rewrite Hg. reflexivity.
Qed.

(** A bit-packed write, on the integer of the whole buffer. *)
Lemma set_whole (f : field) (off : nat) (buffer : bytes) (v : value) (raw : Z) :
  writable f = true -> bit_offset f = Some off ->
  resolve f v = Return raw -> 0 <= raw < 2 ^ Z.of_nat (width f) ->
  (byte_offset f + snd (window f) <= length buffer)%nat ->
  exists data,
    snd (set f v buffer) = Return (byte_offset f, data) /\
    length data = snd (window f) /\
    length (fst (set f v buffer)) = length buffer /\
    be_decode (fst (set f v buffer)) =
    update_bits (8 * Z.of_nat (length buffer) - bit_end f) (Z.of_nat (width f))
                (be_decode buffer) raw.
Proof.
  intros Hrw Hoff Hres Hraw Hin.
  destruct (field_place f off buffer Hoff Hin) as [Hn Hg]. rewrite Hn in *.
  pose proof (read_window_in _ _ _ Hin) as Hread.
  pose proof (read_window_range _ _ _ _ Hread) as Hword.
  destruct (set_bit_packed f off buffer v raw _ Hrw Hoff Hres Hraw Hread)
    as (Hset & _ & Hlen).
  pose proof (span_covers off (width f)) as Hcov.
  set (word := be_decode (take (span off (width f)) (drop (byte_offset f) buffer))) in *.
  set (word' := update_bits (Z.of_nat off) (Z.of_nat (width f)) word raw) in *.
  assert (Hfit : 0 <= word' < 256 ^ Z.of_nat (span off (width f))).
  { rewrite pow_bytes in *. apply update_bound; lia. }
  exists (be_encode (span off (width f)) word').
  rewrite Hset. cbn [fst snd]. split; [reflexivity|].
  split; [apply length_be_encode|]. split; [exact Hlen|].
  rewrite buffer_of_splice by (rewrite length_be_encode; exact Hin).
  rewrite length_be_encode, be_decode_encode by exact Hfit.
  unfold word', word. rewrite window_of_buffer by exact Hin.
  rewrite update_update by lia. rewrite Hg. reflexivity.
Qed.

(** For two fields whose windows end at the same byte, the bits of the
    buffer are disjoint exactly when the ranges
    [[bit_offset, bit_offset + bit_width)] are. *)
Lemma same_window_end_disjoint (fa fb : field) (oa ob : nat) :
  bit_offset fa = Some oa -> bit_offset fb = Some ob ->
  (byte_offset fa + snd (window fa) = byte_offset fb + snd (window fb))%nat ->
  (bit_end fa <= bit_start fb \/ bit_end fb <= bit_start fa) <->
  (ob + width fb <= oa \/ oa + width fa <= ob)%nat.
Proof.
  unfold bit_start, bit_end. intros -> -> ->. cbn [default from_option id]. lia.
Qed.

End BufferBits.

Section DisjointBits.
Import Accessor TestAccessor.

(** C1, as stated, fails in three ways.  Bit 4 of a one-byte window and bit
    12 of a two-byte window at the same offset are the same bit of the
    buffer, although the ranges [4, 6) and [12, 14) are disjoint and the
    byte spans overlap: the second write replaces the first value.  A number
    that does not fit the four bits of its field is or-ed into the bits of
    the sibling next to it.  And a field whose window leaves the buffer is
    neither written nor read. *)
Lemma shared_bytes_clobbered :
  (let fa := mkField "A" KEnum 0 (Some 4%nat) (Some 2%nat) (Some udp_items) true in
   let fb := mkField "B" KEnum 0 (Some 12%nat) (Some 2%nat) (Some udp_items) true in
   let b1 := fst (set fa (VStr "HI") [x00; x00]) in
   let b2 := fst (set fb (VStr "LO") b1) in
   window fa = (0%nat, 1%nat) /\ window fb = (0%nat, 2%nat) /\
   (4 + width fa <= 12)%nat /\
   snd (set fa (VStr "HI") [x00; x00]) = Return (0%nat, [x20]) /\
   snd (set fb (VStr "LO") b1) = Return (0%nat, [x10; x00]) /\
   get fb b2 = Return (VStr "LO") /\
   get fa b2 = Return (VStr "LO") /\
   get fa b2 <> Return (VStr "HI")) /\
  (let fa := mkField "A" KByte 0 (Some 4%nat) (Some 4%nat) None true in
   let fb := mkField "B" KByte 0 (Some 0%nat) (Some 4%nat) None true in
   let b1 := fst (set fa (VInt 4) [x00]) in
   let b2 := fst (set fb (VInt 31) b1) in
   window fa = (0%nat, 1%nat) /\ window fb = (0%nat, 1%nat) /\
   (0 + width fb <= 4)%nat /\
   snd (set fa (VInt 4) [x00]) = Return (0%nat, [x40]) /\
   snd (set fb (VInt 31) b1) = Return (0%nat, [x5f]) /\
   get fa b2 = Return (VInt 5) /\ get fa b2 <> Return (VInt 4) /\
   get fb b2 = Return (VInt 15) /\ get fb b2 <> Return (VInt 31)) /\
  (let fa := mkField "A" KEnum 1 (Some 12%nat) (Some 2%nat) (Some udp_items) true in
   let fb := mkField "B" KEnum 1 (Some 14%nat) (Some 2%nat) (Some udp_items) true in
   let b1 := fst (set fa (VStr "HI") [x00; x00]) in
   let b2 := fst (set fb (VStr "LO") b1) in
   window fa = (1%nat, 2%nat) /\ window fb = (1%nat, 2%nat) /\
   (12 + width fa <= 14)%nat /\
   snd (set fa (VStr "HI") [x00; x00]) = Raise SchemaError /\
   snd (set fb (VStr "LO") b1) = Raise SchemaError /\
   b2 = [x00; x00] /\
   get fa b2 = Raise SchemaError /\ get fb b2 = Raise SchemaError).
Proof.
  cbv zeta. repeat split; try (cbn; lia); try discriminate.
Qed.

(** C1, amended: for two writable bit-packed fields whose windows lie inside
    the Status Buffer and whose bits in the buffer are disjoint (for two
    fields whose windows end at the same byte: whose bit ranges
    [bit_offset, bit_offset + bit_width) are disjoint), writing to A a value
    that A can hold, then to B a value that B can hold, succeeds, and reading
    both gives each field its last-written value; each write queues the bytes
    of the window of its field, keeps the length of the buffer and changes no
    bit of the buffer outside the bits of the written field. *)
Theorem disjoint_bit_fields_keep_values
    (fa fb : field) (oa ob : nat) (buffer : bytes) (va vb : value)
    (Hrwa : writable fa = true) (Hrwb : writable fb = true)
    (Hoa : bit_offset fa = Some oa) (Hob : bit_offset fb = Some ob)
    (Hina : (byte_offset fa + snd (window fa) <= length buffer)%nat)
    (Hinb : (byte_offset fb + snd (window fb) <= length buffer)%nat)
    (Hdisj : bit_end fa <= bit_start fb \/ bit_end fb <= bit_start fa)
    (Hva : storable fa va = true) (Hvb : storable fb vb = true) :
  let b1 := fst (set fa va buffer) in
  let b2 := fst (set fb vb b1) in
  (exists data, snd (set fa va buffer) = Return (byte_offset fa, data) /\
                length data = snd (window fa)) /\
  (exists data, snd (set fb vb b1) = Return (byte_offset fb, data) /\
                length data = snd (window fb)) /\
  get fa b2 = Return va /\
  get fb b2 = Return vb /\
  length b1 = length buffer /\ length b2 = length buffer /\
  (forall p, ~ (bit_start fa <= p < bit_end fa) -> buffer_bit b1 p = buffer_bit buffer p) /\
  (forall p, ~ (bit_start fb <= p < bit_end fb) -> buffer_bit b2 p = buffer_bit b1 p).
Proof.
  cbv zeta.
  destruct (storable_resolve fa va Hva) as (rawa & Hresa & Hrawa & Hdeca).
  destruct (storable_resolve fb vb Hvb) as (rawb & Hresb & Hrawb & Hdecb).
  destruct (set_whole fa oa buffer va rawa Hrwa Hoa Hresa Hrawa Hina)
    as (da & Hseta & Hlena & Hlen1 & Hdec1).
  set (b1 := fst (set fa va buffer)) in *.
  assert (Hinb1 : (byte_offset fb + snd (window fb) <= length b1)%nat) by lia.
  destruct (set_whole fb ob b1 vb rawb Hrwb Hob Hresb Hrawb Hinb1)
    as (db & Hsetb & Hlenb & Hlen2 & Hdec2).
  set (b2 := fst (set fb vb b1)) in *.
  destruct (field_place fa oa buffer Hoa Hina) as [_ Hga].
  destruct (field_place fb ob buffer Hob Hinb) as [_ Hgb].
  set (L := 8 * Z.of_nat (length buffer)) in *.
  assert (HL1 : 8 * Z.of_nat (length b1) = L) by (unfold L; lia).
  assert (HL2 : 8 * Z.of_nat (length b2) = L) by (unfold L; lia).
  rewrite HL1 in Hdec2.
  assert (Hposa : 0 <= L - bit_end fa) by lia.
  assert (Hposb : 0 <= L - bit_end fb) by lia.
  split; [eauto|]. split; [eauto|].
  split; [|split; [|split; [exact Hlen1|split; [lia|split]]]].
  - rewrite (get_whole fa oa b2 Hoa) by lia. rewrite HL2, Hdec2.
    rewrite extract_update_other by (unfold bit_start in Hdisj; lia).
    rewrite Hdec1, extract_update by lia. exact Hdeca.
  - rewrite (get_whole fb ob b2 Hob) by lia. rewrite HL2, Hdec2.
    rewrite extract_update by lia. exact Hdecb.
  - intros p Hp.
    apply (buffer_bit_update buffer b1 (L - bit_end fa) (Z.of_nat (width fa)) rawa);
      try assumption; try lia.
    fold L. unfold bit_start in Hp. lia.
  - intros p Hp.
    apply (buffer_bit_update b1 b2 (L - bit_end fb) (Z.of_nat (width fb)) rawb);
      try assumption; try lia.
    rewrite HL1. unfold bit_start in Hp. lia.
Qed.

(** Two runs: the two enums of the unit test, at bits 12 and 14 of one
    two-byte window, and two fields over windows of different lengths, bits
    [8, 10) of the window of bytes 0 and 1 and bits [0, 2) of the window of
    byte 1 alone. *)
Lemma disjoint_bit_fields_keep_values_witness :
  (let b1 := fst (set UdP2 (VStr "HI") status_block) in
   let b2 := fst (set UdP1 (VStr "LO") b1) in
   window UdP2 = window UdP1 /\
   get UdP2 b2 = Return (VStr "HI") /\ get UdP1 b2 = Return (VStr "LO")) /\
  (let fa := mkField "A" KEnum 0 (Some 8%nat) (Some 2%nat) (Some udp_items) true in
   let fb := mkField "B" KEnum 1 (Some 0%nat) (Some 2%nat) (Some udp_items) true in
   let b1 := fst (set fa (VStr "HI") [x00; x00]) in
   let b2 := fst (set fb (VStr "LO") b1) in
   window fa = (0%nat, 2%nat) /\ window fb = (1%nat, 1%nat) /\
   b2 = [x02; x01] /\
   get fa b2 = Return (VStr "HI") /\ get fb b2 = Return (VStr "LO")).
Proof.
  split.
  - pose proof (disjoint_bit_fields_keep_values UdP2 UdP1 12 14 status_block
                  (VStr "HI") (VStr "LO")) as H.
    cbv zeta in H.
    destruct H as (_ & _ & Ha & Hb & _); try reflexivity; try (vm_compute; lia).
    + right. vm_compute. discriminate.
    + cbv zeta. split; [reflexivity|split; [exact Ha|exact Hb]].
  - pose proof (disjoint_bit_fields_keep_values
                  (mkField "A" KEnum 0 (Some 8%nat) (Some 2%nat) (Some udp_items) true)
                  (mkField "B" KEnum 1 (Some 0%nat) (Some 2%nat) (Some udp_items) true)
                  8 0 [x00; x00] (VStr "HI") (VStr "LO")) as H.
    cbv zeta in H.
    destruct H as (_ & _ & Ha & Hb & _); try reflexivity; try (vm_compute; lia).
    + left. vm_compute. discriminate.
    + cbv zeta. do 3 (split; [reflexivity|]). split; [exact Ha|exact Hb].
Defined.

End DisjointBits.

(** ** The connection handshake *)

Section HandshakeFacts.
Import Spa.

Variable K : GeckoConstants.
Variable decorated_value : accessor -> bytes -> outcome Accessor.value.

Ltac run_callback :=
  cbv [deliver close open set_isopen _on_version_received _on_channel_received
       _on_config_received _ping_thread_turn refresh retry_request queue_send
       add_receive_handler get_and_increment_sequence_counter
       replace_status_block_segment raise modify gets lift
       mbind mret M_bind M_ret fst snd].

(** Merging the segments of a partial status update, one splice after the
    other. *)
Lemma partial_status_cons (change : nat * bytes) (rest : list (nat * bytes)) (s : GeckoSpa) :
  _on_partial_status_update (change :: rest) s =
  _on_partial_status_update rest
    (set_struct (mkStructure (Accessor.splice (fst change) (snd change)
                                (status_block (struct s)))
                             true (retry_requests (struct s))) s).
Proof. reflexivity. Qed.

(** The callbacks leave the accessor table and [is_connected] alone, and
    none of them takes back that a block has been merged. *)
Lemma partial_status_untouched (changes : list (nat * bytes)) (s : GeckoSpa) :
  let s' := fst (_on_partial_status_update changes s) in
  accessors s' = accessors s /\ is_connected s' = is_connected s /\
  isopen (socket s') = isopen (socket s) /\
  (had_at_least_one_block (struct s) = true \/ changes <> [] ->
   had_at_least_one_block (struct s') = true).
Proof.
  revert s. induction changes as [|change rest IH]; intros s.
  - cbn. repeat split. intros [H|H]; [exact H|congruence].
  - rewrite partial_status_cons. cbv zeta in *.
    destruct (IH (set_struct (mkStructure (Accessor.splice (fst change) (snd change)
                                (status_block (struct s)))
                             true (retry_requests (struct s))) s)) as (A & B & C & D).
    rewrite A, B, C. repeat split. intros _. apply D. left. reflexivity.
Qed.

Lemma deliver_untouched (e : event) (s : GeckoSpa) :
  accessors (deliver K e s) = accessors s /\
  is_connected (deliver K e s) = is_connected s /\
  (had_at_least_one_block (struct s) = true ->
   had_at_least_one_block (struct (deliver K e s)) = true).
Proof.
  destruct e as [|h|c g|h|changes|].
  - run_callback. cbn. tauto.
  - run_callback. cbn. tauto.
  - run_callback. cbn. tauto.
  - run_callback. cbn. destruct (find_plateform _ _ _); cbn; tauto.
  - cbn [deliver]. pose proof (partial_status_untouched changes s) as H.
    cbv zeta in H. tauto.
  - run_callback. cbn. destruct (isopen (socket s)); cbn; [|tauto].
    destruct (is_connected s) eqn:E; cbn; rewrite ?E; [|tauto].
    destruct (log_xml s); cbn; rewrite ?E; tauto.
Qed.

Lemma deliver_all_untouched (es : list event) (s : GeckoSpa) :
  accessors (deliver_all K es s) = accessors s /\
  is_connected (deliver_all K es s) = is_connected s /\
  (had_at_least_one_block (struct s) = true ->
   had_at_least_one_block (struct (deliver_all K es s)) = true).
Proof.
  revert s. induction es as [|e es IH]; intros s; [cbn; tauto|].
  change (deliver_all K (e :: es) s) with (deliver_all K es (deliver K e s)).
  destruct (IH (deliver K e s)) as (A & B & C).
  destruct (deliver_untouched e s) as (A' & B' & C').
  rewrite A, B. tauto.
Qed.

Lemma deliver_all_app (es es' : list event) (s : GeckoSpa) :
  deliver_all K (es ++ es') s = deliver_all K es' (deliver_all K es s).
Proof. unfold deliver_all. apply fold_left_app. Qed.

(** One non-empty partial status update among the delivered events is enough
    for the structure to report a block. *)
Lemma deliver_all_segment (es : list event) (changes : list (nat * bytes)) (s : GeckoSpa) :
  PartialStatusUpdate changes ∈ es -> changes <> [] ->
  had_at_least_one_block (struct (deliver_all K es s)) = true.
Proof.
  intros Hin Hne. revert s. induction es as [|e es IH]; intros s.
  - apply elem_of_nil in Hin. contradiction.
  - change (deliver_all K (e :: es) s) with (deliver_all K es (deliver K e s)).
    apply elem_of_cons in Hin as [<-|Hin]; [|apply IH, Hin].
    apply deliver_all_untouched. cbn [deliver].
    apply (partial_status_untouched changes s). right. exact Hne.
Qed.

Lemma start_handshake_ok (s s1 : GeckoSpa) :
  start_handshake s = (s1, Return tt) ->
  accessors s1 = accessors s /\ is_connected s1 = false /\
  isopen (socket s1) = true.
Proof.
  unfold start_handshake.
  cbv [close open set_isopen queue_send add_receive_handler
       get_and_increment_sequence_counter raise modify gets lift
       mbind mret M_bind M_ret].
  cbn. destruct (Version.request _) as [req|e]; [|discriminate].
  intros [= <-]. cbn. auto.
Qed.

Lemma wait_when_connected (schedule : list (list event * list event)) (s : GeckoSpa) :
  is_connected s = true -> wait_for_connection K schedule s = (s, LoopExit).
Proof. intros H. destruct schedule; cbn; rewrite H; reflexivity. Qed.

Lemma wait_turn (before_isopen before_block : list event)
    (rest : list (list event * list event)) (s : GeckoSpa) :
  is_connected s = false ->
  wait_for_connection K ((before_isopen, before_block) :: rest) s =
    let s1 := deliver_all K before_isopen s in
    if negb (isopen (socket s1)) then (s1, SocketGone)
    else
      let s2 := deliver_all K before_block s1 in
      wait_for_connection K rest
        (set_is_connected (had_at_least_one_block (struct s2)) s2).
Proof. intros H. cbn [wait_for_connection]. rewrite H. reflexivity. Qed.

Lemma wait_still_polling (schedule : list (list event * list event)) (s s' : GeckoSpa) :
  wait_for_connection K schedule s = (s', StillPolling) -> is_connected s' = false.
Proof.
  revert s. induction schedule as [|[b1 b2] rest IH]; intros s; cbn [wait_for_connection];
    destruct (is_connected s) eqn:E; try discriminate.
  - intros [= <-]. exact E.
  - destruct (negb (isopen (socket (deliver_all K b1 s)))); [discriminate|]. apply IH.
Qed.

Lemma wait_app (earlier later : list (list event * list event)) (s s' : GeckoSpa) :
  wait_for_connection K earlier s = (s', StillPolling) ->
  wait_for_connection K (earlier ++ later) s = wait_for_connection K later s'.
Proof.
  revert s. induction earlier as [|[b1 b2] rest IH]; intros s.
  - cbn [wait_for_connection app]. destruct (is_connected s); [discriminate|].
    intros [= <-]. reflexivity.
  - cbn [wait_for_connection app]. destruct (is_connected s); [discriminate|].
    destruct (negb (isopen (socket (deliver_all K b1 s)))); [discriminate|]. apply IH.
Qed.

Lemma find_plateform_no_match (key : string) (nodes : list plateform)
    (current : option plateform) :
  (forall p, p ∈ nodes -> lower (plateform_name p) <> lower key) ->
  find_plateform key nodes current = current.
Proof.
  unfold find_plateform. revert current.
  induction nodes as [|p nodes IH]; intros current Hno; [reflexivity|].
  cbn [fold_left]. destruct (String.eqb_spec (lower (plateform_name p)) (lower key)) as [E|_].
  - exfalso. apply (Hno p); [left|exact E].
  - apply IH. intros q Hq. apply Hno. right. exact Hq.
Qed.

(** C5, amended: when the platform key of the config-file response matches
    no node of the catalogue and no pack has been resolved before, the
    callback fails by raising a plain [Exception] that carries the
    no-spa-pack message for that key; no schema is captured and no
    status-block request is issued: the spa object is as it was. *)
Theorem config_without_plateform_raises (h : config_response) (s : GeckoSpa)
    (Hfresh : gecko_pack_xml s = None)
    (Hno : forall p, p ∈ xml s -> lower (plateform_name p) <> lower (plateform_key h)) :
  let s' := fst (_on_config_received K h s) in
  snd (_on_config_received K h s) =
    Raise (PyException (EXCEPTION_MESSAGE_NO_SPA_PACK K (plateform_key h))) /\
  s' = s /\
  gecko_pack_xml s' = None /\
  (config_xml s', log_xml s', pack_type s') = (config_xml s, log_xml s, pack_type s) /\
  retry_requests (struct s') = retry_requests (struct s) /\
  send_queue (socket s') = send_queue (socket s).
Proof.
  assert (H : _on_config_received K h s =
    (s, Raise (PyException (EXCEPTION_MESSAGE_NO_SPA_PACK K (plateform_key h))))).
  { unfold _on_config_received. cbv [raise modify gets mbind M_bind].
    rewrite find_plateform_no_match by exact Hno. rewrite Hfresh.
    destruct s. cbn in *. subst. reflexivity. }
  cbv zeta. rewrite H. cbn [fst snd]. rewrite Hfresh. repeat split.
Qed.

End HandshakeFacts.

(** ** The handshake, run on the example installation *)

Section HandshakeRuns.
Import Spa.

(** The responses arrive in order (version, channel, config, one partial
    status segment): [connect] returns the spa, connected, with its accessor
    table and the identifying fields resolved. *)
Example handshake_reaches_connected :
  let h := Version.set_versions 85 1 0 34 2 0 (Version.__init__ None) in
  let schedule :=
    [([VersionReceived h; ChannelReceived 11 80;
       ConfigReceived (mkConfigResponse "inxm" 9 9);
       PartialStatusUpdate [(0%nat, TestAccessor.status_block)]], [])] in
  let (s', r) := connect example_constants example_decorated_value schedule example_spa in
  r = Return ReturnsSelf /\ is_connected s' = true /\
  size (accessors s') = 6%nat /\
  pack s' = Some (Accessor.VStr "inXM") /\
  version s' = Some "515 v7.8"%string /\
  config_number s' = Some (Accessor.VInt 1) /\
  intouch_version_en s' = "85 v1.0"%string.
Proof. vm_compute. repeat split. Qed.

(** C5, as stated, fails: what the callback raises is a plain [Exception],
    not a [ConnectionError]. *)
Lemma config_without_plateform_not_connection_error :
  let h := mkConfigResponse "inYT" 9 9 in
  gecko_pack_xml example_spa = None /\
  find_plateform (plateform_key h) (xml example_spa) None = None /\
  snd (_on_config_received example_constants h example_spa) =
    Raise (PyException "Cannot find spa pack for inYT") /\
  snd (_on_config_received example_constants h example_spa) <> Raise ConnectionError.
Proof.
  cbv zeta. repeat split; try (vm_compute; reflexivity).
  vm_compute. discriminate.
Qed.

Lemma config_without_plateform_raises_witness :
  let h := mkConfigResponse "inYT" 9 9 in
  gecko_pack_xml example_spa = None /\
  snd (_on_config_received example_constants h example_spa) =
    Raise (PyException "Cannot find spa pack for inYT") /\
  fst (_on_config_received example_constants h example_spa) = example_spa.
Proof.
  split; [reflexivity|].
  pose proof (config_without_plateform_raises example_constants
                (mkConfigResponse "inYT" 9 9) example_spa) as H.
  cbv zeta in H. destruct H as (R & S & _).
  - reflexivity.
  - intros p Hp. apply list_elem_of_singleton in Hp. subst p. vm_compute. discriminate.
  - split; [exact R|exact S].
Defined.

End HandshakeRuns.

(** * Further properties of the code *)

(** ** [version.py]: construction, recognition and handling of datagrams *)

Section VersionHandler.
Import Version.

Lemma in_range_dec (v m : Z) :
  (0 <=? v) && (v <? m) = true <-> 0 <= v < m.
Proof.
  rewrite andb_true_iff, Z.leb_le, Z.ltb_lt. reflexivity.
Qed.

Lemma handle_unfold (d : bytes) (h : GeckoVersionProtocolHandler) :
  handle d h =
    if startswith d AVERS_VERB then
      if Nat.eqb (length (drop 5 d)) 1
      then (set_sequence (be_decode (take 1 (drop 5 d))) h, Return tt)
      else (h, Raise StructError)
    else
      if Nat.eqb (length (drop 5 d)) 8
      then (set_should_remove_handler true
              (set_versions
                 (be_decode (take 2 (drop 5 d)))
                 (be_decode (take 1 (drop 2 (drop 5 d))))
                 (be_decode (take 1 (drop 1 (drop 2 (drop 5 d)))))
                 (be_decode (take 2 (drop 1 (drop 1 (drop 2 (drop 5 d))))))
                 (be_decode (take 1 (drop 2 (drop 1 (drop 1 (drop 2 (drop 5 d)))))))
                 (be_decode (take 1 (drop 1 (drop 2 (drop 1 (drop 1 (drop 2 (drop 5 d)))))))) h),
            Return tt)
      else (h, Raise StructError).
Proof.
  unfold handle, Struct.unpack.
  destruct (startswith d AVERS_VERB).
  - change (Struct.calcsize [Struct.B]) with 1%nat.
    destruct (Nat.eqb (length (drop 5 d)) 1); reflexivity.
  - change (Struct.calcsize VERSION_FORMAT) with 8%nat.
    destruct (Nat.eqb (length (drop 5 d)) 8); reflexivity.
Qed.

Lemma length_drop5 (d : bytes) (n : nat) :
  (5 <= length d)%nat -> (length (drop 5 d) = n <-> length d = (5 + n)%nat).
Proof. intros H. rewrite length_drop. lia. Qed.

Lemma startswith_length (d p : bytes) :
  startswith d p = true -> (length p <= length d)%nat.
Proof.
  intros H. apply startswith_inv in H. rewrite H, length_app. lia.
Qed.

(** X1: [request(seq)] returns a handler exactly when [seq] fits one
    unsigned byte, and raises [struct.error] otherwise; the content it builds
    has six bytes and is a datagram the handler itself accepts. *)
Theorem request_returns_iff_byte (seq : Z) :
  match request seq with
  | Return h =>
      0 <= seq < 256 /\
      _content h = Some (AVERS_VERB ++ [byte_of_Z seq]) /\
      length (AVERS_VERB ++ [byte_of_Z seq]) = 6%nat /\
      can_handle (AVERS_VERB ++ [byte_of_Z seq]) = true /\
      _should_remove_handler h = false
  | Raise e => e = StructError /\ ~ (0 <= seq < 256)
  end.
Proof.
  unfold request. cbn [Struct.pack Struct.size].
  change (256 ^ Z.of_nat 1) with 256.
  destruct ((0 <=? seq) && (seq <? 256)) eqn:E.
  - apply in_range_dec in E. cbn. repeat split; lia.
  - split; [reflexivity|]. intros H. apply in_range_dec in H. congruence.
Qed.

(** X2: [response(...)] returns a handler exactly when the two build numbers
    fit sixteen bits and the four version numbers fit eight, and raises
    [struct.error] otherwise; the content it builds has thirteen bytes and is
    a datagram the handler accepts. *)
Theorem response_returns_iff_in_range (enb enM enm cob coM com : Z) :
  let in_range :=
    0 <= enb < 65536 /\ 0 <= enM < 256 /\ 0 <= enm < 256 /\
    0 <= cob < 65536 /\ 0 <= coM < 256 /\ 0 <= com < 256 in
  match response enb enM enm cob coM com with
  | Return h =>
      in_range /\
      exists content, _content h = Some content /\
                      length content = 13%nat /\ can_handle content = true
  | Raise e => e = StructError /\ ~ in_range
  end.
Proof.
  intros in_range. unfold in_range, response, VERSION_FORMAT.
  cbn [Struct.pack Struct.size].
  change (256 ^ Z.of_nat 2) with 65536. change (256 ^ Z.of_nat 1) with 256.
  destruct ((0 <=? enb) && (enb <? 65536)) eqn:E1;
    [|split; [reflexivity|]; rewrite <- !in_range_dec; intros H; intuition congruence].
  destruct ((0 <=? enM) && (enM <? 256)) eqn:E2;
    [|split; [reflexivity|]; rewrite <- !in_range_dec; intros H; intuition congruence].
  destruct ((0 <=? enm) && (enm <? 256)) eqn:E3;
    [|split; [reflexivity|]; rewrite <- !in_range_dec; intros H; intuition congruence].
  destruct ((0 <=? cob) && (cob <? 65536)) eqn:E4;
    [|split; [reflexivity|]; rewrite <- !in_range_dec; intros H; intuition congruence].
  destruct ((0 <=? coM) && (coM <? 256)) eqn:E5;
    [|split; [reflexivity|]; rewrite <- !in_range_dec; intros H; intuition congruence].
  destruct ((0 <=? com) && (com <? 256)) eqn:E6;
    [|split; [reflexivity|]; rewrite <- !in_range_dec; intros H; intuition congruence].
  rewrite <- !in_range_dec. split; [tauto|].
  eexists. split; [reflexivity|]. split; reflexivity.
Qed.

(** X3: [can_handle] accepts exactly the datagrams that begin with one of
    the two five-byte verbs; nothing shorter than five bytes is accepted. *)
Theorem can_handle_iff_verb (d : bytes) :
  (can_handle d = true <->
     (exists rest, d = AVERS_VERB ++ rest) \/ (exists rest, d = SVERS_VERB ++ rest)) /\
  (can_handle d = true -> (5 <= length d)%nat).
Proof.
  assert (H : can_handle d = true <->
     (exists rest, d = AVERS_VERB ++ rest) \/ (exists rest, d = SVERS_VERB ++ rest)).
  { unfold can_handle. rewrite orb_true_iff. split.
    - intros [H|H]; [left|right]; apply startswith_inv in H; eauto.
    - intros [[r ->]|[r ->]]; [left|right]; apply startswith_app. }
  split; [exact H|]. intros Hc. apply H in Hc as [[r ->]|[r ->]];
    rewrite length_app; cbn; lia.
Qed.

(** X4: [handle] returns exactly when the datagram has the size of its
    branch: six bytes when it begins with [AVERS], thirteen otherwise.  In
    every other case it raises [struct.error] and the handler keeps all its
    attributes. *)
Theorem handle_returns_iff_sized (d : bytes) (h : GeckoVersionProtocolHandler) :
  let sized :=
    (startswith d AVERS_VERB = true /\ length d = 6%nat) \/
    (startswith d AVERS_VERB = false /\ length d = 13%nat) in
  match handle d h with
  | (_, Return _) => sized
  | (h', Raise e) => e = StructError /\ h' = h /\ ~ sized
  end.
Proof.
  intros sized. unfold sized. rewrite handle_unfold.
  destruct (startswith d AVERS_VERB) eqn:Ea.
  - pose proof (startswith_length _ _ Ea) as Hlen. cbn in Hlen.
    destruct (Nat.eqb_spec (length (drop 5 d)) 1) as [E|E];
      rewrite length_drop in E.
    + left. split; [reflexivity|lia].
    + repeat split. intros [[_ H]|[H _]]; [lia|discriminate].
  - destruct (Nat.eqb_spec (length (drop 5 d)) 8) as [E|E];
      rewrite length_drop in E.
    + right. split; [reflexivity|lia].
    + repeat split. intros [[H _]|[_ H]]; [discriminate|lia].
Qed.

(** X5: [handle] does not look for the verb [SVERS]: any datagram of
    thirteen bytes that does not begin with [AVERS] is read as a version
    response, the numbers held by its last eight bytes are stored in the six
    version fields, and the removal flag is set, also when [can_handle]
    rejects the datagram. *)
Theorem handle_reads_any_other_verb
    (v0 v1 v2 v3 v4 b0 b1 b2 b3 b4 b5 b6 b7 : byte)
    (h : GeckoVersionProtocolHandler)
    (Hverb : [v0; v1; v2; v3; v4] <> AVERS_VERB) :
  let d := [v0; v1; v2; v3; v4; b0; b1; b2; b3; b4; b5; b6; b7] in
  let h' := fst (handle d h) in
  snd (handle d h) = Return tt /\
  _should_remove_handler h' = true /\
  en_build h' = Some (byte_val b0 * 256 + byte_val b1) /\
  en_major h' = Some (byte_val b2) /\ en_minor h' = Some (byte_val b3) /\
  co_build h' = Some (byte_val b4 * 256 + byte_val b5) /\
  co_major h' = Some (byte_val b6) /\ co_minor h' = Some (byte_val b7).
Proof.
  cbv zeta. rewrite handle_unfold.
  destruct (startswith [v0; v1; v2; v3; v4; b0; b1; b2; b3; b4; b5; b6; b7] AVERS_VERB)
    eqn:Ea; [|repeat split].
  exfalso. apply Hverb. apply startswith_inv in Ea.
  cbn in Ea. injection Ea as -> -> -> -> ->. reflexivity.
Qed.

Lemma handle_reads_any_other_verb_witness :
  let d := ["X"; "V"; "E"; "R"; "S"; x01; x2c; x01; x02; x01; x90; x03; x04]%byte in
  can_handle d = false /\
  _should_remove_handler (fst (handle d (__init__ None))) = true /\
  en_build (fst (handle d (__init__ None))) = Some 300 /\
  co_build (fst (handle d (__init__ None))) = Some 400 /\
  co_minor (fst (handle d (__init__ None))) = Some 4.
Proof.
  cbv zeta. split; [reflexivity|].
  pose proof (handle_reads_any_other_verb
                "X" "V" "E" "R" "S" x01 x2c x01 x02 x01 x90 x03 x04 (__init__ None)) as H.
  cbv zeta in H. destruct H as (_ & F & E1 & _ & _ & E4 & _ & E6).
  - discriminate.
  - split; [exact F|]. split; [exact E1|]. split; [exact E4|exact E6].
Defined.

(** X6: a datagram delivered twice does what it does once: handling it
    again gives the same handler and the same outcome. *)
Theorem handle_twice (d : bytes) (h : GeckoVersionProtocolHandler) :
  handle d (fst (handle d h)) = handle d h.
Proof.
  rewrite !handle_unfold.
  destruct (startswith d AVERS_VERB).
  - destruct (Nat.eqb (length (drop 5 d)) 1); reflexivity.
  - destruct (Nat.eqb (length (drop 5 d)) 8); reflexivity.
Qed.

(** X7: the last datagram of a kind wins: after a datagram of the same
    branch (both begin with [AVERS], or neither does), a well-sized datagram
    leaves the handler as if the earlier one had never arrived. *)
Theorem handle_last_wins (d1 d2 : bytes) (h : GeckoVersionProtocolHandler)
    (Hkind : startswith d1 AVERS_VERB = startswith d2 AVERS_VERB)
    (Hsized : snd (handle d2 h) = Return tt) :
  handle d2 (fst (handle d1 h)) = handle d2 h.
Proof.
  rewrite !handle_unfold in *. rewrite Hkind.
  destruct (startswith d2 AVERS_VERB).
  - destruct (Nat.eqb (length (drop 5 d2)) 1); [|discriminate].
    destruct (Nat.eqb (length (drop 5 d1)) 1); reflexivity.
  - destruct (Nat.eqb (length (drop 5 d2)) 8); [|discriminate].
    destruct (Nat.eqb (length (drop 5 d1)) 8); reflexivity.
Qed.

Lemma handle_last_wins_witness :
  handle (SVERS_VERB ++ [x00; x55; x01; x00; x00; x22; x02; x00])
         (fst (handle (SVERS_VERB ++ [x01; x2c; x01; x02; x01; x90; x03; x04])
                      (__init__ None))) =
  handle (SVERS_VERB ++ [x00; x55; x01; x00; x00; x22; x02; x00]) (__init__ None).
Proof.
  apply (handle_last_wins (SVERS_VERB ++ [x01; x2c; x01; x02; x01; x90; x03; x04])
           (SVERS_VERB ++ [x00; x55; x01; x00; x00; x22; x02; x00]) (__init__ None));
    reflexivity.
Defined.

(** X8: what [handle] never writes: the content of the handler in no case;
    the six version fields when the datagram begins with [AVERS]; the
    sequence number when it does not. *)
Theorem handle_frame (d : bytes) (h : GeckoVersionProtocolHandler) :
  let h' := fst (handle d h) in
  _content h' = _content h /\
  if startswith d AVERS_VERB
  then (en_build h', en_major h', en_minor h') = (en_build h, en_major h, en_minor h) /\
       (co_build h', co_major h', co_minor h') = (co_build h, co_major h, co_minor h)
  else _sequence h' = _sequence h.
Proof.
  cbv zeta. rewrite handle_unfold.
  destruct (startswith d AVERS_VERB).
  - destruct (Nat.eqb (length (drop 5 d)) 1); cbn; auto.
  - destruct (Nat.eqb (length (drop 5 d)) 8); cbn; auto.
Qed.

End VersionHandler.

(** ** [version.py]: the echoed request and the removal flag *)

Section VersionEcho.
Import Version.

(** C10, as stated, fails twice.  A datagram that begins with [AVERS] but is
    not the six-byte echo makes [handle] raise [struct.error] and store no
    sequence number; and [handle] sets the removal flag on a datagram that
    does not begin with [SVERS] (thirteen bytes behind any other verb). *)
Lemma avers_not_always_stored_flag_not_only_svers :
  let h := set_sequence 9 (__init__ None) in
  let long_echo := AVERS_VERB ++ [x01; x02] in
  let other := ["X"; "V"; "E"; "R"; "S"; x01; x2c; x01; x02; x01; x90; x03; x04]%byte in
  (startswith long_echo AVERS_VERB = true /\
   snd (handle long_echo h) = Raise StructError /\
   _sequence (fst (handle long_echo h)) = 9) /\
  (startswith other SVERS_VERB = false /\
   _should_remove_handler h = false /\
   _should_remove_handler (fst (handle other h)) = true).
Proof. repeat split. Qed.

(** C10, amended: on every datagram that begins with the request verb
    [AVERS], [handle] leaves the removal flag as it was, so the handler stays
    registered; when the datagram is the echoed request, the verb and one
    byte, that byte is stored as the sequence number, and when it has any
    other length [handle] raises [struct.error] and stores nothing.  The
    flag is set exactly by the thirteen-byte datagrams that do not begin with
    [AVERS]; among the datagrams that [can_handle] accepts these begin with
    the response verb [SVERS]. *)
Theorem avers_echo_keeps_handler
    (d : bytes) (h : GeckoVersionProtocolHandler)
    (Hd : startswith d AVERS_VERB = true) :
  _should_remove_handler (fst (handle d h)) = _should_remove_handler h /\
  (forall seq : byte,
     d = AVERS_VERB ++ [seq] ->
     snd (handle d h) = Return tt /\
     _sequence (fst (handle d h)) = byte_val seq) /\
  (length d <> 6%nat ->
     snd (handle d h) = Raise StructError /\ fst (handle d h) = h) /\
  (forall (d' : bytes) (h' : GeckoVersionProtocolHandler),
     _should_remove_handler h' = false ->
     (_should_remove_handler (fst (handle d' h')) = true <->
        startswith d' AVERS_VERB = false /\ length d' = 13%nat) /\
     (can_handle d' = true ->
      _should_remove_handler (fst (handle d' h')) = true ->
      startswith d' SVERS_VERB = true)).
Proof.
  split; [|split; [|split]].
  - rewrite handle_unfold, Hd.
    destruct (Nat.eqb (length (drop 5 d)) 1); reflexivity.
  - intros seq ->. split; reflexivity.
  - intros Hlen. rewrite handle_unfold, Hd.
    pose proof (startswith_length _ _ Hd) as H5. cbn in H5.
    destruct (Nat.eqb_spec (length (drop 5 d)) 1) as [E|E]; [|split; reflexivity].
    rewrite length_drop in E. lia.
  - intros d' h' Hoff.
    assert (Hiff : _should_remove_handler (fst (handle d' h')) = true <->
                   startswith d' AVERS_VERB = false /\ length d' = 13%nat).
    { rewrite handle_unfold. destruct (startswith d' AVERS_VERB) eqn:Ea.
      - destruct (Nat.eqb (length (drop 5 d')) 1); cbn; rewrite Hoff;
          split; [discriminate|intros [? _]; discriminate
                 |discriminate|intros [? _]; discriminate].
      - destruct (Nat.eqb_spec (length (drop 5 d')) 8) as [E|E];
          rewrite length_drop in E; cbn.
        + split; [intros _; split; [reflexivity|lia]|reflexivity].
        + rewrite Hoff. split; [discriminate|intros [_ ?]; lia]. }
    split; [exact Hiff|].
    intros Hcan Hon. apply Hiff in Hon as [Ea _].
    unfold can_handle in Hcan. rewrite Ea in Hcan. exact Hcan.
Qed.

Lemma avers_echo_keeps_handler_witness :
  startswith (AVERS_VERB ++ [x07]) AVERS_VERB = true /\
  _should_remove_handler (fst (handle (AVERS_VERB ++ [x07]) (__init__ None))) = false /\
  _sequence (fst (handle (AVERS_VERB ++ [x07]) (__init__ None))) = 7.
Proof.
  pose proof (avers_echo_keeps_handler (AVERS_VERB ++ [x07]) (__init__ None)
                eq_refl) as H.
  split; [reflexivity|]. split; [apply H|].
  destruct H as [_ [H _]]. destruct (H x07 eq_refl) as [_ Hs]. exact Hs.
Defined.

End VersionEcho.

(** ** [spa.py]: the config callback *)

Section ConfigCallback.
Import Spa.

Variable K : GeckoConstants.

Lemma find_plateform_last (key : string) (before after : list plateform)
    (p : plateform) (current : option plateform) :
  lower (plateform_name p) = lower key ->
  (forall q, q ∈ after -> lower (plateform_name q) <> lower key) ->
  find_plateform key (before ++ p :: after) current = Some p.
Proof.
  intros Hp Hafter. unfold find_plateform. rewrite fold_left_app. cbn [fold_left].
  rewrite Hp, String.eqb_refl.
  apply (find_plateform_no_match key after (Some p) Hafter).
Qed.

(** The callback once a pack is at hand. *)
Lemma config_received_with_pack (h : config_response) (s : GeckoSpa) (p : plateform) :
  find_plateform (plateform_key h) (xml s) (gecko_pack_xml s) = Some p ->
  let s' := fst (_on_config_received K h s) in
  snd (_on_config_received K h s) = Return tt /\
  gecko_pack_xml s' = Some p /\
  pack_type s' = Some (plateform_type p) /\
  (config_version s', config_xml s') =
    (handler_config_version h,
     find_structure (handler_config_version h) (config_structures p)) /\
  (log_version s', log_xml s') =
    (handler_log_version h,
     find_structure (handler_log_version h) (log_structures p)) /\
  (exists seq,
     retry_requests (struct s') = retry_requests (struct s) ++ [StatusBlockFullRequest seq] /\
     send_queue (socket s') = send_queue (socket s) ++ [StatusBlockFullRequest seq]) /\
  status_block (struct s') = status_block (struct s) /\
  is_connected s' = is_connected s /\
  accessors s' = accessors s.
Proof.
  intros Hfind. unfold _on_config_received.
  cbv [retry_request queue_send get_and_increment_sequence_counter
       raise modify gets mbind mret M_bind M_ret].
  rewrite Hfind. cbn. repeat split. eexists. split; reflexivity.
Qed.

(** X9: when nodes of the catalogue match the platform key up to the case of
    ASCII letters, the callback takes the last of them (the search loop has
    no [break]): it returns without raising, records that node, its type and
    the structures of the two versions of the response ([None] when the
    pack has no structure of that version), and hands one full status-block
    request to the retry driver; the Status Buffer, [is_connected] and the
    accessor table are not touched. *)
Theorem config_received_takes_last_match
    (h : config_response) (s : GeckoSpa)
    (before after : list plateform) (p : plateform)
    (Hxml : xml s = before ++ p :: after)
    (Hp : lower (plateform_name p) = lower (plateform_key h))
    (Hafter : forall q, q ∈ after -> lower (plateform_name q) <> lower (plateform_key h)) :
  let s' := fst (_on_config_received K h s) in
  snd (_on_config_received K h s) = Return tt /\
  gecko_pack_xml s' = Some p /\
  pack_type s' = Some (plateform_type p) /\
  (config_version s', config_xml s') =
    (handler_config_version h,
     find_structure (handler_config_version h) (config_structures p)) /\
  (log_version s', log_xml s') =
    (handler_log_version h,
     find_structure (handler_log_version h) (log_structures p)) /\
  (exists seq,
     retry_requests (struct s') = retry_requests (struct s) ++ [StatusBlockFullRequest seq] /\
     send_queue (socket s') = send_queue (socket s) ++ [StatusBlockFullRequest seq]) /\
  status_block (struct s') = status_block (struct s) /\
  is_connected s' = is_connected s /\
  accessors s' = accessors s.
Proof.
  apply config_received_with_pack. rewrite Hxml.
  apply find_plateform_last; assumption.
Qed.

(** X10: the test [gecko_pack_xml is None] looks at the attribute, not at
    the search: once a pack has been resolved, a later response whose key
    matches no node raises nothing and goes on with the pack resolved
    earlier, under the versions of the new response. *)
Theorem config_received_keeps_earlier_pack
    (h : config_response) (s : GeckoSpa) (p0 : plateform)
    (Hearlier : gecko_pack_xml s = Some p0)
    (Hno : forall q, q ∈ xml s -> lower (plateform_name q) <> lower (plateform_key h)) :
  let s' := fst (_on_config_received K h s) in
  snd (_on_config_received K h s) = Return tt /\
  gecko_pack_xml s' = Some p0 /\
  pack_type s' = Some (plateform_type p0) /\
  (config_version s', config_xml s') =
    (handler_config_version h,
     find_structure (handler_config_version h) (config_structures p0)) /\
  (log_version s', log_xml s') =
    (handler_log_version h,
     find_structure (handler_log_version h) (log_structures p0)).
Proof.
  destruct (config_received_with_pack h s p0) as (A & B & C & D & E & _).
  - rewrite find_plateform_no_match by exact Hno. exact Hearlier.
  - cbv zeta. auto.
Qed.

End ConfigCallback.

Lemma config_received_takes_last_match_witness :
  let twice := Spa.example_catalogue ++
                 [Spa.mkPlateform "INXM" 7 [] [(9, Spa.example_log)]] in
  let s := Spa.__init__ twice (replicate 23 x00) Spa.example_descriptor in
  let s' := fst (Spa._on_config_received Spa.example_constants
                   (Spa.mkConfigResponse "inxm" 9 9) s) in
  Spa.pack_type s' = Some 7 /\ Spa.config_xml s' = None /\
  Spa.log_xml s' = Some Spa.example_log.
Proof.
  cbv zeta.
  pose proof (config_received_takes_last_match Spa.example_constants
                (Spa.mkConfigResponse "inxm" 9 9)
                (Spa.__init__ (Spa.example_catalogue ++
                                 [Spa.mkPlateform "INXM" 7 [] [(9, Spa.example_log)]])
                              (replicate 23 x00) Spa.example_descriptor)
                Spa.example_catalogue [] (Spa.mkPlateform "INXM" 7 [] [(9, Spa.example_log)])
                eq_refl eq_refl) as H.
  cbv zeta in H. destruct H as (_ & _ & Ht & Hc & Hl & _).
  - intros q Hq. apply elem_of_nil in Hq. contradiction.
  - split; [exact Ht|]. split.
    + apply (f_equal snd) in Hc. exact Hc.
    + apply (f_equal snd) in Hl. exact Hl.
Defined.

Lemma config_received_keeps_earlier_pack_witness :
  let s := fst (Spa._on_config_received Spa.example_constants
                  (Spa.mkConfigResponse "inxm" 9 9) Spa.example_spa) in
  let s' := fst (Spa._on_config_received Spa.example_constants
                   (Spa.mkConfigResponse "inYT" 8 9) s) in
  snd (Spa._on_config_received Spa.example_constants
         (Spa.mkConfigResponse "inYT" 8 9) s) = Return tt /\
  Spa.pack_type s' = Some 6 /\ Spa.config_xml s' = None.
Proof.
  cbv zeta.
  pose proof (config_received_keeps_earlier_pack Spa.example_constants
                (Spa.mkConfigResponse "inYT" 8 9)
                (fst (Spa._on_config_received Spa.example_constants
                        (Spa.mkConfigResponse "inxm" 9 9) Spa.example_spa))
                (Spa.mkPlateform "InXM" 6 [(9, Spa.example_config)] [(9, Spa.example_log)]))
    as H.
  cbv zeta in H. destruct H as (Hr & _ & Ht & Hc & _).
  - vm_compute. reflexivity.
  - intros q Hq. vm_compute in Hq. apply list_elem_of_singleton in Hq. subst q.
    vm_compute. discriminate.
  - split; [exact Hr|]. split; [exact Ht|].
    apply (f_equal snd) in Hc. exact Hc.
Defined.

(** ** [spa.py]: the accessor table *)

Section AccessorTable.
Import Spa.

Lemma accessor_table_snoc (elements : list Accessor.field) (e : Accessor.field) :
  accessor_table (elements ++ [e]) =
  <[Accessor.name e := GeckoStructAccessor e]> (accessor_table elements).
Proof. unfold accessor_table. rewrite fold_left_app. reflexivity. Qed.

(** The dict comprehension keeps, for every tag, the last element that
    carries it. *)
Lemma accessor_table_lookup (elements : list Accessor.field) (key : string) :
  accessor_table elements !! key =
  GeckoStructAccessor <$> last (filter (fun e => Accessor.name e = key) elements).
Proof.
  induction elements as [|e elements IH] using rev_ind; [reflexivity|].
  rewrite accessor_table_snoc, filter_app.
  destruct (decide (Accessor.name e = key)) as [E|E].
  - rewrite E, lookup_insert_eq.
    rewrite (filter_cons_True _ e []) by exact E.
    rewrite filter_nil, last_snoc. reflexivity.
  - rewrite lookup_insert_ne by exact E.
    rewrite (filter_cons_False _ e []) by exact E.
    rewrite filter_nil, app_nil_r. exact IH.
Qed.

Lemma decorate_lookup (keys : list string) (m : gmap string accessor) (key : string) :
  NoDup keys ->
  fold_left (fun acc k => alter GeckoTemperatureDecorator k acc) keys m !! key =
  if bool_decide (key ∈ keys) then GeckoTemperatureDecorator <$> m !! key else m !! key.
Proof.
  intros Hnd. revert m. induction Hnd as [|k keys Hk Hnd IH]; intros m; [reflexivity|].
  cbn [fold_left]. rewrite IH, lookup_alter.
  destruct (decide (k = key)) as [->|Hne].
  - rewrite (bool_decide_eq_false_2 _ Hk).
    rewrite bool_decide_eq_true_2 by left. reflexivity.
  - destruct (bool_decide_reflect (key ∈ keys)) as [Hin|Hout].
    + rewrite bool_decide_eq_true_2 by (right; exact Hin). reflexivity.
    + rewrite bool_decide_eq_false_2; [reflexivity|].
      intros [->|H]%elem_of_cons; [congruence|contradiction].
Qed.

Lemma temp_keys_spec (elements : list Accessor.field) (key : string) :
  key ∈ temp_keys elements <->
  existsb (fun e => String.eqb (Accessor.name e) key && is_temp_key e) elements = true.
Proof.
  unfold temp_keys. rewrite elem_of_remove_dups, list_elem_of_fmap, existsb_exists. split.
  - intros (e & -> & He). apply list_elem_of_In, filter_In in He as [He Ht].
    exists e. rewrite String.eqb_refl, Ht. auto.
  - intros (e & He & Ht). apply andb_true_iff in Ht as [Hn Ht].
    apply String.eqb_eq in Hn. exists e. split; [congruence|].
    apply list_elem_of_In, filter_In. auto.
Qed.

(** The table that [_build_accessors] assigns. *)
Lemma built_table_lookup (elements : list Accessor.field) (key : string) :
  fold_left (fun acc k => alter GeckoTemperatureDecorator k acc)
            (temp_keys elements) (accessor_table elements) !! key =
  (fun e => if existsb (fun e' => String.eqb (Accessor.name e') key && is_temp_key e')
                       elements
            then GeckoTemperatureDecorator (GeckoStructAccessor e)
            else GeckoStructAccessor e)
  <$> last (filter (fun e => Accessor.name e = key) elements).
Proof.
  rewrite decorate_lookup by apply NoDup_remove_dups.
  rewrite accessor_table_lookup.
  destruct (last _) as [e|]; cbn.
  - destruct (bool_decide_reflect (key ∈ temp_keys elements)) as [Hin|Hout].
    + apply temp_keys_spec in Hin. rewrite Hin. reflexivity.
    + rewrite temp_keys_spec in Hout. apply not_true_is_false in Hout.
      rewrite Hout. reflexivity.
  - destruct (bool_decide _); reflexivity.
Qed.

Lemma build_accessors_shape (s : GeckoSpa) :
  match _build_accessors s with
  | (s', Return _) =>
      exists c l, config_xml s = Some c /\ log_xml s = Some l /\
                  s' = set_accessors
                         (fold_left (fun acc k => alter GeckoTemperatureDecorator k acc)
                            (temp_keys (pos_elements c ++ pos_elements l))
                            (accessor_table (pos_elements c ++ pos_elements l))) s
  | (s', Raise e) =>
      e = AttributeError /\ s' = s /\ (config_xml s = None \/ log_xml s = None)
  end.
Proof.
  unfold _build_accessors. cbv [raise modify gets mbind M_bind].
  destruct (config_xml s) as [c|] eqn:Hc; [|auto].
  destruct (log_xml s) as [l|] eqn:Hl; [|auto].
  exists c, l. split; [reflexivity|]. split; [reflexivity|]. destruct s; reflexivity.
Qed.

(** X11: [_build_accessors] needs both structures: when [config_xml] or
    [log_xml] is [None] it raises [AttributeError] and the spa is left as it
    was.  Otherwise it only replaces the accessor table, which then holds, for
    every tag of an element of the config structure followed by the log
    structure, the accessor of the last element with that tag (a log element
    replaces a config element of the same tag), wrapped once in a
    temperature decorator exactly when some element with that tag is a word
    whose lower-cased tag contains [temp] or [setpoint]; no other key is in
    the table. *)
Theorem build_accessors_table (s : GeckoSpa) :
  match _build_accessors s with
  | (s', Return _) =>
      exists c l,
        config_xml s = Some c /\ log_xml s = Some l /\
        s' = set_accessors (accessors s') s /\
        forall key,
          accessors s' !! key =
            (fun e => if existsb (fun e' => String.eqb (Accessor.name e') key
                                             && is_temp_key e')
                                 (pos_elements c ++ pos_elements l)
                      then GeckoTemperatureDecorator (GeckoStructAccessor e)
                      else GeckoStructAccessor e)
            <$> last (filter (fun e => Accessor.name e = key)
                             (pos_elements c ++ pos_elements l))
  | (s', Raise e) =>
      e = AttributeError /\ s' = s /\ (config_xml s = None \/ log_xml s = None)
  end.
Proof.
  pose proof (build_accessors_shape s) as H.
  destruct (_build_accessors s) as [s' [[]|e]]; [|exact H].
  destruct H as (c & l & Hc & Hl & ->). exists c, l.
  split; [exact Hc|]. split; [exact Hl|]. split; [reflexivity|].
  intros key. apply built_table_lookup.
Qed.

End AccessorTable.

(** ** [spa.py]: what [connect] returns and raises *)

Section ConnectOutcomes.
Import Spa.

Variable K : GeckoConstants.
Variable decorated_value : accessor -> bytes -> outcome Accessor.value.

Lemma bind_returns {S A B : Type} (m : M S A) (k : A -> M S B) (s s' : S) (b : B) :
  (m ≫= k) s = (s', Return b) ->
  exists s1 a, m s = (s1, Return a) /\ k a s1 = (s', Return b).
Proof.
  unfold mbind, M_bind. destruct (m s) as [s1 [a|e]]; [eauto|discriminate].
Qed.

Lemma wait_exit_connected (schedule : list (list event * list event)) (s s' : GeckoSpa) :
  wait_for_connection K schedule s = (s', LoopExit) -> is_connected s' = true.
Proof.
  revert s. induction schedule as [|[b1 b2] rest IH]; intros s; cbn [wait_for_connection];
    destruct (is_connected s) eqn:E; try discriminate.
  - intros [= <-]. exact E.
  - intros [= <-]. exact E.
  - destruct (negb (isopen (socket (deliver_all K b1 s)))); [discriminate|]. apply IH.
Qed.

Lemma wait_gone_closed (schedule : list (list event * list event)) (s s' : GeckoSpa) :
  wait_for_connection K schedule s = (s', SocketGone) ->
  isopen (socket s') = false /\ is_connected s' = false /\ accessors s' = accessors s.
Proof.
  revert s. induction schedule as [|[b1 b2] rest IH]; intros s; cbn [wait_for_connection];
    destruct (is_connected s) eqn:E; try discriminate.
  destruct (deliver_all_untouched K b1 s) as (A1 & B1 & _).
  destruct (isopen (socket (deliver_all K b1 s))) eqn:Ho; cbn [negb].
  - intros H. apply IH in H as (Hc & Hn & Ha). repeat split; try assumption.
    rewrite Ha. cbn.
    destruct (deliver_all_untouched K b2 (deliver_all K b1 s)) as (A2 & _). congruence.
  - intros [= <-]. repeat split; congruence.
Qed.

Lemma value_of_returns (key : string) (s s' : GeckoSpa) (v : Accessor.value) :
  value_of decorated_value key s = (s', Return v) ->
  s' = s /\ is_Some (accessors s !! key).
Proof.
  unfold value_of. destruct (accessors s !! key) as [a|]; [|discriminate].
  intros [= <- _]. eauto.
Qed.

Lemma connected_step_returns (s s' : GeckoSpa) (r : returned) :
  connected_step K decorated_value s = (s', Return r) ->
  r = ReturnsSelf /\
  is_connected s' = is_connected s /\
  isopen (socket s') = isopen (socket s) /\
  is_Some (config_xml s') /\ is_Some (log_xml s') /\
  is_Some (pack s') /\ is_Some (version s') /\ is_Some (config_number s') /\
  Forall (fun key => is_Some (accessors s' !! key))
    [KEY_PACK_TYPE K; KEY_PACK_CONFIG_ID K; KEY_PACK_CONFIG_REV K;
     KEY_PACK_CONFIG_REL K; KEY_CONFIG_NUMBER K].
Proof.
  unfold connected_step. intros H.
  apply bind_returns in H as (s1 & [] & Hbuild & H).
  pose proof (build_accessors_shape s) as Hshape. rewrite Hbuild in Hshape.
  destruct Hshape as (c & l & Hc & Hl & Hs1).
  apply bind_returns in H as (s2 & p & Hp & H). apply value_of_returns in Hp as [-> Hk1].
  apply bind_returns in H as (s3 & [] & Hm & H). injection Hm as <-.
  apply bind_returns in H as (s4 & id & Hid & H). apply value_of_returns in Hid as [-> Hk2].
  apply bind_returns in H as (s5 & rev & Hrev & H). apply value_of_returns in Hrev as [-> Hk3].
  apply bind_returns in H as (s6 & rel & Hrel & H). apply value_of_returns in Hrel as [-> Hk4].
  apply bind_returns in H as (s7 & [] & Hm & H). injection Hm as <-.
  apply bind_returns in H as (s8 & n & Hn & H). apply value_of_returns in Hn as [-> Hk5].
  apply bind_returns in H as (s9 & [] & Hm & H). injection Hm as <-.
  injection H as <- <-. subst s1.
  cbn [is_connected isopen socket config_xml log_xml pack version config_number accessors
       set_accessors set_pack set_version set_config_number] in *.
  rewrite Hc, Hl. repeat split; eauto.
  repeat (apply Forall_cons; split; [assumption|]). apply Forall_nil. exact I.
Qed.

Lemma connect_unfold (schedule : list (list event * list event)) (s : GeckoSpa) :
  connect K decorated_value schedule s =
    match start_handshake s with
    | (s0, Raise e) => (s0, Raise e)
    | (s0, Return _) =>
        match wait_for_connection K schedule s0 with
        | (s1, LoopExit) => connected_step K decorated_value s1
        | (s1, SocketGone) => (s1, Return ReturnsNone)
        | (s1, StillPolling) => (s1, Return NoReturnYet)
        end
    end.
Proof.
  unfold connect. cbv [mbind M_bind mret M_ret].
  destruct (start_handshake s) as [s0 [[]|e]]; [|reflexivity].
  destruct (wait_for_connection K schedule s0) as [s1 []]; reflexivity.
Qed.

(** X12: when [connect] returns the spa, the spa is connected: [is_connected]
    is true, both structures were resolved, the accessor table holds the
    five identifying keys, and [pack], [version] and [config_number] have
    been read through it. *)
Theorem connect_returns_self_connected
    (schedule : list (list event * list event)) (s s' : GeckoSpa)
    (Hself : connect K decorated_value schedule s = (s', Return ReturnsSelf)) :
  is_connected s' = true /\
  is_Some (config_xml s') /\ is_Some (log_xml s') /\
  is_Some (pack s') /\ is_Some (version s') /\ is_Some (config_number s') /\
  Forall (fun key => is_Some (accessors s' !! key))
    [KEY_PACK_TYPE K; KEY_PACK_CONFIG_ID K; KEY_PACK_CONFIG_REV K;
     KEY_PACK_CONFIG_REL K; KEY_CONFIG_NUMBER K].
Proof.
  rewrite connect_unfold in Hself.
  destruct (start_handshake s) as [s0 [[]|e]]; [|discriminate].
  destruct (wait_for_connection K schedule s0) as [s1 []] eqn:Hw; try discriminate.
  apply wait_exit_connected in Hw.
  apply connected_step_returns in Hself as (_ & Hc & _ & H). rewrite Hc. auto.
Qed.

(** X13: [connect] returns [None] only from inside its loop: the socket is
    then closed, [is_connected] is false and the accessor table is the one
    the spa had before the call. *)
Theorem connect_returns_none_only_when_closed
    (schedule : list (list event * list event)) (s s' : GeckoSpa)
    (Hnone : connect K decorated_value schedule s = (s', Return ReturnsNone)) :
  isopen (socket s') = false /\ is_connected s' = false /\
  accessors s' = accessors s.
Proof.
  rewrite connect_unfold in Hnone.
  destruct (start_handshake s) as [s0 [[]|e]] eqn:Hstart; [|discriminate].
  destruct (start_handshake_ok s s0 Hstart) as (A & _).
  destruct (wait_for_connection K schedule s0) as [s1 []] eqn:Hw.
  - apply connected_step_returns in Hnone as [? _]. discriminate.
  - injection Hnone as <-. apply wait_gone_closed in Hw as (? & ? & ?).
    repeat split; congruence.
  - discriminate.
Qed.

(** X14: when the loop of [connect] ends while the config or the log
    structure is still [None] (a block was merged before the config response
    was handled, or the pack has no structure of the announced version),
    [connect] raises [AttributeError]: it returns nothing, the accessor table
    is not built, and [is_connected] stays true. *)
Theorem connect_raises_without_structures
    (schedule : list (list event * list event)) (s s0 s1 : GeckoSpa)
    (Hstart : start_handshake s = (s0, Return tt))
    (Hwait : wait_for_connection K schedule s0 = (s1, LoopExit))
    (Hnone : config_xml s1 = None \/ log_xml s1 = None) :
  connect K decorated_value schedule s = (s1, Raise AttributeError) /\
  is_connected s1 = true.
Proof.
  split; [|eapply wait_exit_connected; exact Hwait].
  rewrite connect_unfold, Hstart, Hwait. unfold connected_step. cbv [mbind M_bind].
  pose proof (build_accessors_shape s1) as H.
  destruct (_build_accessors s1) as [s2 [[]|e]].
  - destruct H as (c & l & Hc & Hl & _). destruct Hnone; congruence.
  - destruct H as (-> & -> & _). reflexivity.
Qed.

(** X15: when the loop of [connect] ends with both structures resolved but
    no element of either carries the tag [KEY_PACK_TYPE], [connect] raises
    [KeyError] for that key, after the accessor table has been assigned and
    before [pack] is. *)
Theorem connect_raises_key_error
    (schedule : list (list event * list event)) (s s0 s1 : GeckoSpa)
    (c l : struct_xml)
    (Hstart : start_handshake s = (s0, Return tt))
    (Hwait : wait_for_connection K schedule s0 = (s1, LoopExit))
    (Hc : config_xml s1 = Some c) (Hl : log_xml s1 = Some l)
    (Hmissing : Forall (fun e => Accessor.name e <> KEY_PACK_TYPE K)
                       (pos_elements c ++ pos_elements l)) :
  let s' := fst (connect K decorated_value schedule s) in
  snd (connect K decorated_value schedule s) = Raise (KeyError (KEY_PACK_TYPE K)) /\
  pack s' = pack s1 /\
  forall key, is_Some (accessors s' !! key) <->
              exists e, e ∈ pos_elements c ++ pos_elements l /\ Accessor.name e = key.
Proof.
  assert (Hlast : forall key,
    is_Some (last (filter (fun e => Accessor.name e = key)
                          (pos_elements c ++ pos_elements l))) <->
    exists e, e ∈ pos_elements c ++ pos_elements l /\ Accessor.name e = key).
  { intros key. split.
    - intros [e He]. apply last_Some_elem_of, list_elem_of_filter in He as [Hn He].
      eauto.
    - intros (e & He & Hn).
      assert (Hin : e ∈ filter (fun e => Accessor.name e = key)
                             (pos_elements c ++ pos_elements l))
        by (apply list_elem_of_filter; auto).
      destruct (last _) eqn:E; [eauto|].
      apply last_None in E. rewrite E in Hin. apply elem_of_nil in Hin. contradiction. }
  cbv zeta. rewrite connect_unfold, Hstart, Hwait.
  unfold connected_step. cbv [mbind M_bind].
  pose proof (build_accessors_shape s1) as H.
  destruct (_build_accessors s1) as [s2 [[]|e]].
  - destruct H as (c' & l' & Hc' & Hl' & ->).
    assert (c' = c) as -> by congruence. assert (l' = l) as -> by congruence.
    unfold value_of. cbn [accessors set_accessors].
    rewrite built_table_lookup.
    destruct (last _) as [e|] eqn:E.
    + exfalso. apply last_Some_elem_of, list_elem_of_filter in E as [Hn He].
      rewrite Forall_forall in Hmissing. apply (Hmissing e He Hn).
    + cbn. split; [reflexivity|]. split; [reflexivity|].
      intros key. rewrite built_table_lookup, <- Hlast. apply fmap_is_Some.
  - destruct H as (_ & _ & [H|H]); congruence.
Qed.

End ConnectOutcomes.

Section ConnectOutcomesRuns.
Import Spa.

Lemma connect_returns_self_connected_witness :
  let schedule :=
    [([VersionReceived (Version.__init__ None); ChannelReceived 11 80;
       ConfigReceived (mkConfigResponse "inxm" 9 9);
       PartialStatusUpdate [(0%nat, TestAccessor.status_block)]], [])] in
  let result := connect example_constants example_decorated_value schedule example_spa in
  snd result = Return ReturnsSelf /\ is_connected (fst result) = true /\
  is_Some (accessors (fst result) !! "PackType"%string).
Proof.
  cbv zeta.
  pose proof (connect_returns_self_connected example_constants example_decorated_value
    [([VersionReceived (Version.__init__ None); ChannelReceived 11 80;
       ConfigReceived (mkConfigResponse "inxm" 9 9);
       PartialStatusUpdate [(0%nat, TestAccessor.status_block)]], [])]
    example_spa
    (fst (connect example_constants example_decorated_value
       [([VersionReceived (Version.__init__ None); ChannelReceived 11 80;
          ConfigReceived (mkConfigResponse "inxm" 9 9);
          PartialStatusUpdate [(0%nat, TestAccessor.status_block)]], [])]
       example_spa))) as H.
  destruct H as (Hc & _ & _ & _ & _ & _ & Hk).
  - vm_compute. reflexivity.
  - split; [vm_compute; reflexivity|]. split; [exact Hc|].
    apply Forall_cons in Hk as [Hk _]. exact Hk.
Defined.

Lemma connect_returns_none_only_when_closed_witness :
  let result := connect example_constants example_decorated_value
                  [([], []); ([SocketClosed], [])] example_spa in
  snd result = Return ReturnsNone /\ isopen (socket (fst result)) = false /\
  accessors (fst result) = accessors example_spa.
Proof.
  cbv zeta.
  pose proof (connect_returns_none_only_when_closed example_constants
    example_decorated_value [([], []); ([SocketClosed], [])] example_spa
    (fst (connect example_constants example_decorated_value
            [([], []); ([SocketClosed], [])] example_spa))) as H.
  destruct H as (Ho & _ & Ha).
  - vm_compute. reflexivity.
  - split; [vm_compute; reflexivity|]. split; [exact Ho|exact Ha].
Defined.

Lemma connect_raises_without_structures_witness :
  let schedule := [([PartialStatusUpdate [(0%nat, [x01])]], [])] in
  config_xml (fst (wait_for_connection example_constants schedule
                     (fst (start_handshake example_spa)))) = None /\
  snd (connect example_constants example_decorated_value schedule example_spa) =
    Raise AttributeError.
Proof.
  cbv zeta. split; [vm_compute; reflexivity|].
  pose proof (connect_raises_without_structures example_constants example_decorated_value
    [([PartialStatusUpdate [(0%nat, [x01])]], [])] example_spa
    (fst (start_handshake example_spa))
    (fst (wait_for_connection example_constants
            [([PartialStatusUpdate [(0%nat, [x01])]], [])]
            (fst (start_handshake example_spa))))) as H.
  destruct H as (H & _).
  - vm_compute. reflexivity.
  - vm_compute. reflexivity.
  - left. vm_compute. reflexivity.
  - rewrite H. reflexivity.
Defined.

Lemma connect_raises_key_error_witness :
  let constants :=
    mkConstants "PackKind" "PackConfID" "PackConfRev" "PackConfRel" "ConfigNumber"
                (fun key => key) in
  let schedule :=
    [([ConfigReceived (mkConfigResponse "inxm" 9 9);
       PartialStatusUpdate [(0%nat, TestAccessor.status_block)]], [])] in
  snd (connect constants example_decorated_value schedule example_spa) =
    Raise (KeyError "PackKind").
Proof.
  cbv zeta.
  pose proof (connect_raises_key_error
    (mkConstants "PackKind" "PackConfID" "PackConfRev" "PackConfRel" "ConfigNumber"
                 (fun key => key))
    example_decorated_value
    [([ConfigReceived (mkConfigResponse "inxm" 9 9);
       PartialStatusUpdate [(0%nat, TestAccessor.status_block)]], [])]
    example_spa (fst (start_handshake example_spa))
    (fst (wait_for_connection
            (mkConstants "PackKind" "PackConfID" "PackConfRev" "PackConfRel"
                         "ConfigNumber" (fun key => key))
            [([ConfigReceived (mkConfigResponse "inxm" 9 9);
               PartialStatusUpdate [(0%nat, TestAccessor.status_block)]], [])]
            (fst (start_handshake example_spa))))
    example_config example_log) as H.
  destruct H as (H & _).
  - vm_compute. reflexivity.
  - vm_compute. reflexivity.
  - vm_compute. reflexivity.
  - vm_compute. reflexivity.
  - repeat (apply Forall_cons; split; [vm_compute; discriminate|]). apply Forall_nil. exact I.
  - exact H.
Defined.

End ConnectOutcomesRuns.

(** ** [spa.py]: the callbacks beside [connect] *)

Section Callbacks.
Import Spa.

Variable K : GeckoConstants.

Ltac run_event :=
  cbv [deliver close open set_isopen _on_version_received _on_channel_received
       _on_config_received _ping_thread_turn refresh retry_request queue_send
       add_receive_handler get_and_increment_sequence_counter
       replace_status_block_segment raise modify gets lift
       mbind mret M_bind M_ret fst snd].

(** The attributes that only [connect] assigns, and those nobody assigns. *)
Lemma partial_status_keeps (changes : list (nat * bytes)) (s : GeckoSpa) :
  let s' := fst (_on_partial_status_update changes s) in
  (pack s', version s', config_number s') = (pack s, version s, config_number s) /\
  (xml s', descriptor s') = (xml s, descriptor s) /\
  socket s' = socket s /\
  snd (_on_partial_status_update changes s) = Return tt.
Proof.
  revert s. induction changes as [|change rest IH]; intros s; [cbn; auto|].
  rewrite partial_status_cons. cbv zeta in *.
  destruct (IH (set_struct (mkStructure (Accessor.splice (fst change) (snd change)
                                (status_block (struct s)))
                             true (retry_requests (struct s))) s)) as (A & B & C & D).
  rewrite A, B, C, D. auto.
Qed.

Lemma deliver_keeps (e : event) (s : GeckoSpa) :
  (pack (deliver K e s), version (deliver K e s), config_number (deliver K e s)) =
    (pack s, version s, config_number s) /\
  (xml (deliver K e s), descriptor (deliver K e s)) = (xml s, descriptor s).
Proof.
  destruct e as [|h|c g|h|changes|].
  - run_event. cbn. auto.
  - run_event. cbn. auto.
  - run_event. cbn. auto.
  - run_event. cbn. destruct (find_plateform _ _ _); cbn; auto.
  - cbn [deliver]. pose proof (partial_status_keeps changes s) as H.
    cbv zeta in H. tauto.
  - run_event. cbn. destruct (isopen (socket s)); cbn; [|auto].
    destruct (is_connected s) eqn:E; cbn; [|auto].
    destruct (log_xml s); cbn; auto.
Qed.

(** X16: nothing that runs beside [connect] (the four receive callbacks, the
    closing of the socket, a turn of the ping thread) assigns [is_connected],
    the accessor table, [pack], [version] or [config_number], and none
    changes the catalogue or the descriptor: whatever events are delivered,
    these attributes are the ones the spa had. *)
Theorem events_leave_connection_attributes (es : list event) (s : GeckoSpa) :
  let s' := deliver_all K es s in
  is_connected s' = is_connected s /\
  accessors s' = accessors s /\
  (pack s', version s', config_number s') = (pack s, version s, config_number s) /\
  (xml s', descriptor s') = (xml s, descriptor s).
Proof.
  cbv zeta. revert s. induction es as [|e es IH]; intros s; [cbn; auto|].
  change (deliver_all K (e :: es) s) with (deliver_all K es (deliver K e s)).
  destruct (IH (deliver K e s)) as (A & B & C & D).
  destruct (deliver_untouched K e s) as (A' & B' & _).
  destruct (deliver_keeps e s) as (C' & D').
  rewrite A, B, C, D. auto.
Qed.

Lemma version_received_step (v : Version.GeckoVersionProtocolHandler) (s : GeckoSpa) :
  let s' := deliver K (VersionReceived v) s in
  (exists n, send_queue (socket s') = send_queue (socket s) ++ [GetChannelRequest n]) /\
  GeckoGetChannelProtocolHandler ∈ receive_handlers (socket s') /\
  isopen (socket s') = isopen (socket s) /\
  struct s' = struct s /\
  (xml s', gecko_pack_xml s') = (xml s, gecko_pack_xml s).
Proof.
  run_event. cbn. split; [eauto|]. split; [|auto].
  apply elem_of_app. right. left.
Qed.

Lemma channel_received_step (c g : Z) (s : GeckoSpa) :
  let s' := deliver K (ChannelReceived c g) s in
  (exists n, send_queue (socket s') = send_queue (socket s) ++ [ConfigFileRequest n]) /\
  GeckoConfigFileProtocolHandler ∈ receive_handlers (socket s') /\
  (GeckoGetChannelProtocolHandler ∈ receive_handlers (socket s) ->
   GeckoGetChannelProtocolHandler ∈ receive_handlers (socket s')) /\
  isopen (socket s') = isopen (socket s) /\
  struct s' = struct s /\
  (xml s', gecko_pack_xml s') = (xml s, gecko_pack_xml s) /\
  (channel s', signal s') = (c, g).
Proof.
  run_event. cbn. split; [eauto|]. split; [apply elem_of_app; right; left|].
  split; [|auto]. intros H. apply elem_of_app. left.
  apply list_elem_of_filter. split; [discriminate|exact H].
Qed.

Lemma config_received_step (h : config_response) (s : GeckoSpa) (p : plateform) :
  find_plateform (plateform_key h) (xml s) (gecko_pack_xml s) = Some p ->
  let s' := deliver K (ConfigReceived h) s in
  (exists n,
     send_queue (socket s') = send_queue (socket s) ++ [StatusBlockFullRequest n] /\
     retry_requests (struct s') = retry_requests (struct s) ++ [StatusBlockFullRequest n]) /\
  receive_handlers (socket s') = receive_handlers (socket s) /\
  isopen (socket s') = isopen (socket s) /\
  status_block (struct s') = status_block (struct s) /\
  gecko_pack_xml s' = Some p /\
  (channel s', signal s') = (channel s, signal s).
Proof.
  intros Hfound. run_event. rewrite Hfound. cbn. split; [eauto|]. auto.
Qed.

(** X17: the three handshake callbacks, run in order with a config response
    whose pack is found, queue exactly three requests behind what was
    queued, a channel request, a config-file request and a full status-block
    request, each with the sequence number the counter gave it; they register
    the channel and the config-file handlers and leave the Status Buffer
    alone. *)
Theorem handshake_callbacks_queue
    (v : Version.GeckoVersionProtocolHandler) (c g : Z) (h : config_response)
    (s : GeckoSpa) (p : plateform)
    (Hfound : find_plateform (plateform_key h) (xml s) (gecko_pack_xml s) = Some p) :
  let s' := deliver_all K [VersionReceived v; ChannelReceived c g; ConfigReceived h] s in
  (exists n1 n2 n3,
     send_queue (socket s') =
       send_queue (socket s) ++
         [GetChannelRequest n1; ConfigFileRequest n2; StatusBlockFullRequest n3] /\
     retry_requests (struct s') = retry_requests (struct s) ++ [StatusBlockFullRequest n3]) /\
  GeckoGetChannelProtocolHandler ∈ receive_handlers (socket s') /\
  GeckoConfigFileProtocolHandler ∈ receive_handlers (socket s') /\
  (channel s', signal s') = (c, g) /\
  gecko_pack_xml s' = Some p /\
  status_block (struct s') = status_block (struct s) /\
  isopen (socket s') = isopen (socket s).
Proof.
  cbv zeta.
  change (deliver_all K [VersionReceived v; ChannelReceived c g; ConfigReceived h] s)
    with (deliver K (ConfigReceived h)
            (deliver K (ChannelReceived c g) (deliver K (VersionReceived v) s))).
  pose proof (version_received_step v s) as H1. cbv zeta in H1.
  remember (deliver K (VersionReceived v) s) as s1 eqn:E1. clear E1.
  pose proof (channel_received_step c g s1) as H2. cbv zeta in H2.
  remember (deliver K (ChannelReceived c g) s1) as s2 eqn:E2. clear E2.
  destruct H1 as ([n1 Q1] & G1 & O1 & T1 & X1).
  destruct H2 as ([n2 Q2] & G2 & G2' & O2 & T2 & X2 & C2).
  assert (Hfound2 : find_plateform (plateform_key h) (xml s2) (gecko_pack_xml s2) = Some p).
  { injection X1 as X1 P1. injection X2 as X2 P2. rewrite X2, P2, X1, P1. exact Hfound. }
  pose proof (config_received_step h s2 p Hfound2) as H3. cbv zeta in H3.
  remember (deliver K (ConfigReceived h) s2) as s3 eqn:E3. clear E3.
  destruct H3 as ((n3 & Q3 & R3) & G3 & O3 & B3 & P3 & C3).
  split.
  - exists n1, n2, n3. split.
    + rewrite Q3, Q2, Q1, <- !app_assoc. reflexivity.
    + rewrite R3, T2, T1. reflexivity.
  - rewrite G3, C3, C2, P3, B3, O3, O2, O1, T2, T1. repeat split; auto.
Qed.

(** X18: until [connect] has set [is_connected], a turn of the ping thread
    asks for no status block: on an open socket all it does is queue one ping
    request, and on a closed socket it does nothing. *)
Theorem ping_turn_before_connected (s : GeckoSpa)
    (Hnot : is_connected s = false) :
  snd (_ping_thread_turn s) = Return tt /\
  struct (fst (_ping_thread_turn s)) = struct s /\
  sequence_counter (socket (fst (_ping_thread_turn s))) = sequence_counter (socket s) /\
  send_queue (socket (fst (_ping_thread_turn s))) =
    if isopen (socket s) then send_queue (socket s) ++ [PingRequest]
    else send_queue (socket s).
Proof.
  run_event. cbn. destruct (isopen (socket s)); cbn; rewrite ?Hnot; cbn; auto.
Qed.

End Callbacks.

Lemma handshake_callbacks_queue_witness :
  let s' := Spa.deliver_all Spa.example_constants
              [Spa.VersionReceived (Version.__init__ None); Spa.ChannelReceived 11 80;
               Spa.ConfigReceived (Spa.mkConfigResponse "inxm" 9 9)] Spa.example_spa in
  Spa.send_queue (Spa.socket s') =
    [Spa.GetChannelRequest 0; Spa.ConfigFileRequest 1; Spa.StatusBlockFullRequest 2] /\
  Spa.status_block (Spa.struct s') = Spa.status_block (Spa.struct Spa.example_spa).
Proof.
  cbv zeta.
  pose proof (handshake_callbacks_queue Spa.example_constants (Version.__init__ None)
                11 80 (Spa.mkConfigResponse "inxm" 9 9) Spa.example_spa
                (Spa.mkPlateform "InXM" 6 [(9, Spa.example_config)] [(9, Spa.example_log)]))
    as H.
  destruct H as (_ & _ & _ & _ & _ & Hb & _).
  - vm_compute. reflexivity.
  - split; [vm_compute; reflexivity|exact Hb].
Defined.

Lemma ping_turn_before_connected_witness :
  let s := fst (Spa.start_handshake Spa.example_spa) in
  Spa.is_connected s = false /\
  Spa.struct (fst (Spa._ping_thread_turn s)) = Spa.struct s.
Proof.
  cbv zeta. split; [vm_compute; reflexivity|].
  apply (ping_turn_before_connected (fst (Spa.start_handshake Spa.example_spa))).
  vm_compute. reflexivity.
Defined.

(** ** [spa.py]: the wait loop of [connect] and the events beside it *)

Section WaitLoop.
Import Spa.

Variable K : GeckoConstants.
Variable decorated_value : accessor -> bytes -> outcome Accessor.value.

Ltac run_turn :=
  cbv [deliver close open set_isopen _on_version_received _on_channel_received
       _on_config_received _ping_thread_turn refresh retry_request queue_send
       add_receive_handler get_and_increment_sequence_counter
       replace_status_block_segment raise modify gets lift
       mbind mret M_bind M_ret fst snd].

(** No event opens a socket, and the closing event closes it. *)
Lemma deliver_closed (e : event) (s : GeckoSpa) :
  isopen (socket s) = false \/ e = SocketClosed ->
  isopen (socket (deliver K e s)) = false.
Proof.
  intros [H| ->]; [|reflexivity].
  destruct e as [|h|c g|h|changes|].
  - reflexivity.
  - run_turn. cbn. exact H.
  - run_turn. cbn. exact H.
  - run_turn. cbn. destruct (find_plateform _ _ _); cbn; exact H.
  - cbn [deliver]. destruct (partial_status_untouched changes s) as (_ & _ & E & _).
    rewrite E. exact H.
  - run_turn. cbn. rewrite H. cbn. exact H.
Qed.

Lemma deliver_all_closed (es : list event) (s : GeckoSpa) :
  isopen (socket s) = false \/ SocketClosed ∈ es ->
  isopen (socket (deliver_all K es s)) = false.
Proof.
  revert s. induction es as [|e es IH]; intros s H.
  - destruct H as [H|H]; [exact H|]. apply elem_of_nil in H. contradiction.
  - change (deliver_all K (e :: es) s) with (deliver_all K es (deliver K e s)).
    apply IH. destruct H as [H|H].
    + left. apply deliver_closed. left. exact H.
    + apply elem_of_cons in H as [<-|H]; [left; apply deliver_closed; right|right];
        auto.
Qed.

(** An event that merges no segment leaves the structure without a block. *)
Lemma partial_status_empty (s : GeckoSpa) : _on_partial_status_update [] s = (s, Return tt).
Proof. reflexivity. Qed.

Lemma deliver_quiet (e : event) (s : GeckoSpa) :
  merges_segment e = false ->
  had_at_least_one_block (struct s) = false ->
  had_at_least_one_block (struct (deliver K e s)) = false.
Proof.
  intros Hq H. destruct e as [|h|c g|h|[|change changes]|]; try discriminate.
  - run_turn. cbn. exact H.
  - run_turn. cbn. exact H.
  - run_turn. cbn. exact H.
  - run_turn. cbn. destruct (find_plateform _ _ _); cbn; exact H.
  - exact H.
  - run_turn. cbn. destruct (isopen (socket s)); cbn; [|exact H].
    destruct (is_connected s); cbn; [|exact H].
    destruct (log_xml s); cbn; exact H.
Qed.

Lemma deliver_all_quiet (es : list event) (s : GeckoSpa) :
  Forall (fun e => merges_segment e = false) es ->
  had_at_least_one_block (struct s) = false ->
  had_at_least_one_block (struct (deliver_all K es s)) = false.
Proof.
  intros Hq. revert s. induction Hq as [|e es He Hes IH]; intros s H; [exact H|].
  change (deliver_all K (e :: es) s) with (deliver_all K es (deliver K e s)).
  apply IH. apply deliver_quiet; assumption.
Qed.

Lemma events_of_cons (turn : list event * list event)
    (turns : list (list event * list event)) :
  events_of (turn :: turns) = fst turn ++ snd turn ++ events_of turns.
Proof. unfold events_of. cbn. rewrite <- app_assoc. reflexivity. Qed.

(** The loop, when no segment is merged before the turn at whose test the
    socket is closed. *)
Lemma wait_closed_quiet (earlier : list (list event * list event))
    (b1 b2 : list event) (rest : list (list event * list event)) (s : GeckoSpa) :
  is_connected s = false ->
  had_at_least_one_block (struct s) = false ->
  isopen (socket s) = false \/ SocketClosed ∈ events_of earlier ++ b1 ->
  Forall (fun e => merges_segment e = false) (events_of earlier) ->
  exists s', wait_for_connection K (earlier ++ (b1, b2) :: rest) s = (s', SocketGone).
Proof.
  revert s. induction earlier as [|[c1 c2] earlier IH]; intros s Hn Hb Hc Hq.
  - cbn [app]. rewrite wait_turn by exact Hn. cbv zeta.
    rewrite (deliver_all_closed b1 s) by exact Hc. cbn [negb]. eauto.
  - cbn [app]. rewrite wait_turn by exact Hn. cbv zeta.
    rewrite events_of_cons in Hc, Hq. cbn [fst snd] in Hc, Hq.
    rewrite <- !app_assoc in Hc.
    apply Forall_app in Hq as [Hq1 Hq]. apply Forall_app in Hq as [Hq2 Hq].
    destruct (isopen (socket (deliver_all K c1 s))) eqn:Ho; cbn [negb]; [|eauto].
    pose proof (deliver_all_quiet c1 s Hq1 Hb) as Hb1.
    pose proof (deliver_all_quiet c2 _ Hq2 Hb1) as Hb2.
    rewrite Hb2. apply IH.
    + reflexivity.
    + exact Hb2.
    + destruct Hc as [Hc|Hc].
      * rewrite deliver_all_closed in Ho by (left; exact Hc). discriminate.
      * apply elem_of_app in Hc as [Hc|Hc].
        { rewrite deliver_all_closed in Ho by (right; exact Hc). discriminate. }
        apply elem_of_app in Hc as [Hc|Hc]; [left|right; exact Hc].
        cbn. apply deliver_all_closed. right. exact Hc.
    + exact Hq.
Qed.

Lemma start_handshake_struct (s s0 : GeckoSpa) :
  start_handshake s = (s0, Return tt) -> struct s0 = struct s.
Proof.
  unfold start_handshake.
  cbv [close open set_isopen queue_send add_receive_handler
       get_and_increment_sequence_counter raise modify gets lift
       mbind mret M_bind M_ret].
  cbn. destruct (Version.request _) as [req|e]; [|discriminate].
  intros [= <-]. reflexivity.
Qed.

(** C4, as stated, fails: a close that lands between the two reads of a turn
    of the loop, after a segment has been merged, is not seen.  The socket
    closes while [is_connected] is still false, and yet [connect] builds the
    accessor table and returns the spa. *)
Lemma connect_misses_close_between_reads :
  let schedule :=
    [([ConfigReceived (mkConfigResponse "inxm" 9 9);
       PartialStatusUpdate [(0%nat, TestAccessor.status_block)]], [SocketClosed])] in
  let s0 := fst (start_handshake example_spa) in
  let at_close := deliver_all example_constants
                    [ConfigReceived (mkConfigResponse "inxm" 9 9);
                     PartialStatusUpdate [(0%nat, TestAccessor.status_block)];
                     SocketClosed] s0 in
  let result := connect example_constants example_decorated_value schedule example_spa in
  isopen (socket at_close) = false /\ is_connected at_close = false /\
  snd result = Return ReturnsSelf /\
  snd result <> Return ReturnsNone /\
  size (accessors (fst result)) = 6%nat.
Proof.
  cbv zeta. repeat split; try (vm_compute; reflexivity). vm_compute. discriminate.
Qed.

(** C4, amended: when the socket closes and no partial status segment has
    been merged into the Status Buffer before the turn of the loop whose test
    of [isopen] follows the close (none before [connect], none in the turns
    before), [connect] returns [None] at that test at the latest, whatever
    else arrives in that turn and whatever happens afterwards: it does not go
    on polling, the accessor table is not built and [is_connected] is
    false. *)
Theorem connect_returns_none_when_socket_closes
    (earlier : list (list event * list event)) (b1 b2 : list event)
    (rest : list (list event * list event)) (s s0 : GeckoSpa)
    (Hstart : start_handshake s = (s0, Return tt))
    (Hfresh : had_at_least_one_block (struct s) = false)
    (Hclosed : SocketClosed ∈ events_of earlier ++ b1)
    (Hquiet : Forall (fun e => merges_segment e = false) (events_of earlier)) :
  let result := connect K decorated_value (earlier ++ (b1, b2) :: rest) s in
  snd result = Return ReturnsNone /\
  accessors (fst result) = accessors s /\
  is_connected (fst result) = false /\
  isopen (socket (fst result)) = false.
Proof.
  cbv zeta.
  destruct (start_handshake_ok s s0 Hstart) as (A & B & _).
  pose proof (start_handshake_struct s s0 Hstart) as Hs.
  destruct (wait_closed_quiet earlier b1 b2 rest s0) as (s' & Hw); auto.
  { rewrite Hs. exact Hfresh. }
  rewrite connect_unfold, Hstart, Hw. cbn [fst snd].
  apply wait_gone_closed in Hw as (Ho & Hn & Ha).
  repeat split; congruence.
Qed.

Lemma value_of_state (key : string) (s : GeckoSpa) :
  fst (value_of decorated_value key s) = s.
Proof. unfold value_of. destruct (accessors s !! key); reflexivity. Qed.

(** What the step after the loop does to the spa, however it ends. *)
Lemma connected_step_effects (s : GeckoSpa) :
  let result := connected_step K decorated_value s in
  is_connected (fst result) = is_connected s /\
  snd result <> Return ReturnsNone /\ snd result <> Return NoReturnYet /\
  match config_xml s, log_xml s with
  | Some c, Some l =>
      accessors (fst result) =
        fold_left (fun acc k => alter GeckoTemperatureDecorator k acc)
          (temp_keys (pos_elements c ++ pos_elements l))
          (accessor_table (pos_elements c ++ pos_elements l))
  | _, _ => result = (s, Raise AttributeError)
  end.
Proof.
  cbv zeta. unfold connected_step. cbv [mbind M_bind mret M_ret modify].
  pose proof (build_accessors_shape s) as Hb.
  destruct (_build_accessors s) as [s1 [[]|e]].
  - destruct Hb as (c & l & Hc & Hl & ->). rewrite Hc, Hl.
    repeat match goal with
    | |- context [value_of decorated_value ?k ?t] =>
        let H := fresh "H" in
        pose proof (value_of_state k t) as H;
        destruct (value_of decorated_value k t) as [? [?|?]];
        cbn [fst] in H; subst
    end; cbn; repeat split; discriminate.
  - destruct Hb as (-> & -> & Hnone). cbn.
    split; [reflexivity|]. split; [discriminate|]. split; [discriminate|].
    destruct Hnone as [H|H]; rewrite H; [reflexivity|].
    destruct (config_xml s); reflexivity.
Qed.

(** C3, as stated, fails: a merged segment does not make the connection
    live when the socket is closed at the next test of the loop. *)
Lemma segment_merged_then_socket_closed :
  let schedule := [([PartialStatusUpdate [(0%nat, [x01])]; SocketClosed], [])] in
  let s0 := fst (start_handshake example_spa) in
  let result := connect example_constants example_decorated_value schedule example_spa in
  had_at_least_one_block
    (struct (deliver_all example_constants [PartialStatusUpdate [(0%nat, [x01])]] s0))
    = true /\
  snd result = Return ReturnsNone /\
  is_connected (fst result) = false.
Proof. cbv zeta. repeat split; vm_compute; reflexivity. Qed.

(** C3, amended: while [connect] waits, a turn of its loop in which the
    socket is open at the test of [isopen] and one partial status update
    with at least one segment has been merged makes [is_connected] true and
    takes [connect] out of the loop into the Connected step, whatever the
    bytes of the Status Buffer and whatever part of the declared range has
    arrived: [connect] no longer returns [None], and when the config and log
    structures have been resolved the accessor table is built from their
    elements. *)
Theorem connect_live_on_first_segment
    (earlier : list (list event * list event))
    (before_isopen before_block : list event)
    (rest : list (list event * list event))
    (changes : list (nat * bytes)) (s s0 s1 : GeckoSpa)
    (Hstart : start_handshake s = (s0, Return tt))
    (Hearlier : wait_for_connection K earlier s0 = (s1, StillPolling))
    (Hopen : isopen (socket (deliver_all K before_isopen s1)) = true)
    (Hseg : PartialStatusUpdate changes ∈ before_isopen ++ before_block)
    (Hne : changes <> []) :
  let s2 := deliver_all K before_block (deliver_all K before_isopen s1) in
  let schedule := earlier ++ (before_isopen, before_block) :: rest in
  let result := connect K decorated_value schedule s in
  snd (wait_for_connection K schedule s0) = LoopExit /\
  is_connected (fst result) = true /\
  snd result <> Return ReturnsNone /\ snd result <> Return NoReturnYet /\
  match config_xml s2, log_xml s2 with
  | Some c, Some l =>
      forall key,
        accessors (fst result) !! key =
          (fun e => if existsb (fun e' => String.eqb (Accessor.name e') key
                                           && is_temp_key e')
                               (pos_elements c ++ pos_elements l)
                    then GeckoTemperatureDecorator (GeckoStructAccessor e)
                    else GeckoStructAccessor e)
          <$> last (filter (fun e => Accessor.name e = key)
                           (pos_elements c ++ pos_elements l))
  | _, _ => snd result = Raise AttributeError
  end.
Proof.
  intros s2 schedule result.
  pose proof (wait_still_polling K earlier s0 s1 Hearlier) as B.
  assert (Hblock : had_at_least_one_block (struct s2) = true).
  { unfold s2. rewrite <- deliver_all_app.
    apply (deliver_all_segment K _ changes); assumption. }
  assert (Hwait : wait_for_connection K schedule s0 = (set_is_connected true s2, LoopExit)).
  { unfold schedule. rewrite (wait_app K earlier _ s0 s1 Hearlier).
    rewrite wait_turn by exact B. cbv zeta. rewrite Hopen. cbn [negb].
    fold s2. rewrite Hblock. apply wait_when_connected. reflexivity. }
  split; [rewrite Hwait; reflexivity|].
  unfold result. rewrite connect_unfold, Hstart, Hwait.
  pose proof (connected_step_effects (set_is_connected true s2)) as H.
  cbv zeta in H. destruct H as (Hc & Hn1 & Hn2 & Ht).
  split; [rewrite Hc; reflexivity|]. split; [exact Hn1|]. split; [exact Hn2|].
  change (config_xml (set_is_connected true s2)) with (config_xml s2) in Ht.
  change (log_xml (set_is_connected true s2)) with (log_xml s2) in Ht.
  destruct (config_xml s2) as [c|]; [|rewrite Ht; reflexivity].
  destruct (log_xml s2) as [l|]; [|rewrite Ht; reflexivity].
  intros key. rewrite Ht. apply built_table_lookup.
Qed.

End WaitLoop.

Section WaitLoopRuns.
Import Spa.

(** A run in which the segment and the close arrive in the same turn, before
    the test of [isopen]. *)
Lemma connect_returns_none_when_socket_closes_witness :
  let earlier := [([VersionReceived (Version.__init__ None)], [PartialStatusUpdate []])] in
  let result := connect example_constants example_decorated_value
                  (earlier ++ [([ChannelReceived 11 80;
                                 PartialStatusUpdate [(0%nat, TestAccessor.status_block)];
                                 SocketClosed], [])]) example_spa in
  snd (start_handshake example_spa) = Return tt /\
  snd result = Return ReturnsNone /\
  accessors (fst result) = accessors example_spa /\
  is_connected (fst result) = false.
Proof.
  cbv zeta. split; [vm_compute; reflexivity|].
  pose proof (connect_returns_none_when_socket_closes example_constants
                example_decorated_value
                [([VersionReceived (Version.__init__ None)], [PartialStatusUpdate []])]
                [ChannelReceived 11 80;
                 PartialStatusUpdate [(0%nat, TestAccessor.status_block)];
                 SocketClosed] [] [] example_spa
                (fst (start_handshake example_spa))) as H.
  cbv zeta in H. destruct H as (R & A & C & _).
  - vm_compute. reflexivity.
  - reflexivity.
  - vm_compute. do 4 right. left.
  - vm_compute. repeat (apply Forall_cons; split; [reflexivity|]). apply Forall_nil. exact I.
  - split; [exact R|]. split; [exact A|exact C].
Defined.

Lemma connect_live_on_first_segment_witness :
  let turn := [VersionReceived (Version.__init__ None); ChannelReceived 11 80;
               ConfigReceived (mkConfigResponse "inxm" 9 9);
               PartialStatusUpdate [(19%nat, [x11; x70])]] in
  let result := connect example_constants example_decorated_value
                  [(turn, [])] example_spa in
  is_connected (fst result) = true /\
  snd result <> Return ReturnsNone /\
  accessors (fst result) !! "UdP2"%string =
    Some (GeckoStructAccessor
            (Accessor.mkField "UdP2" Accessor.KEnum 19 (Some 12%nat) None
               (Some TestAccessor.udp_items) true)) /\
  accessors (fst result) !! "Absent"%string = None.
Proof.
  cbv zeta.
  pose proof (connect_live_on_first_segment example_constants example_decorated_value
                []
                [VersionReceived (Version.__init__ None); ChannelReceived 11 80;
                 ConfigReceived (mkConfigResponse "inxm" 9 9);
                 PartialStatusUpdate [(19%nat, [x11; x70])]] [] []
                [(19%nat, [x11; x70])]
                example_spa (fst (start_handshake example_spa))
                (fst (start_handshake example_spa))) as H.
  cbv zeta in H. destruct H as (_ & C & N & _ & T).
  - vm_compute. reflexivity.
  - vm_compute. reflexivity.
  - vm_compute. reflexivity.
  - do 3 right. left.
  - discriminate.
  - assert (Hc : config_xml
        (deliver_all example_constants []
           (deliver_all example_constants
              [VersionReceived (Version.__init__ None); ChannelReceived 11 80;
               ConfigReceived (mkConfigResponse "inxm" 9 9);
               PartialStatusUpdate [(19%nat, [x11; x70])]]
              (fst (start_handshake example_spa)))) = Some example_config)
      by (vm_compute; reflexivity).
    assert (Hl : log_xml
        (deliver_all example_constants []
           (deliver_all example_constants
              [VersionReceived (Version.__init__ None); ChannelReceived 11 80;
               ConfigReceived (mkConfigResponse "inxm" 9 9);
               PartialStatusUpdate [(19%nat, [x11; x70])]]
              (fst (start_handshake example_spa)))) = Some example_log)
      by (vm_compute; reflexivity).
    rewrite Hc, Hl in T.
    split; [exact C|]. split; [exact N|].
    split; [rewrite T; vm_compute; reflexivity|rewrite T; vm_compute; reflexivity].
Defined.

End WaitLoopRuns.
